(** * Bottle Tracker worker: the analysis pipeline of [workers/index.js]

    A shallow embedding of [parseCSVLine], [analyzeBottleFeeds] and
    [calculateDailyTrends], together with the JavaScript primitives they
    call, followed by the properties of the pipeline.  The request
    handler [handleDataRequest] and the upload worker of
    [csv_upload_worker_code.md] ([validateCSV], [handleUpload]) come
    after the pipeline, with their own properties at the end.

    Conventions of the embedding.
    - A JavaScript string is a [string] of 8-bit characters.
    - Integers that the code obtains with [parseInt] are exact ([Z]);
      numbers obtained by division are exact rationals ([Q]).  IEEE-754
      rounding and overflow are outside the model.
    - A number that may be [NaN] is an [option]; the result of a division
      whose divisor may be zero is a [number] with infinities and [NaN].
    - [Date] parsing and [Array.prototype.sort] belong to the host; they
      are the two operations of the class [Host]. *)

From Stdlib Require Import ZArith QArith Qround Lqa Ascii String List Permutation Sorted Lia.
From stdpp Require Import base option list gmap strings.

#[local] Open Scope string_scope.
#[local] Open Scope list_scope.

(** ** JavaScript primitives *)

Module JS.

(** *** Characters and strings *)

Definition quote : ascii := Ascii.ascii_of_nat 34.
Definition comma : ascii := Ascii.ascii_of_nat 44.
Definition space : ascii := Ascii.ascii_of_nat 32.
Definition colon : ascii := Ascii.ascii_of_nat 58.
Definition newline : ascii := Ascii.ascii_of_nat 10.

(** [WhiteSpace] and [LineTerminator] code points below 256: TAB, LF, VT,
    FF, CR, SP and NBSP. *)
Definition is_whitespace (c : ascii) : bool :=
  let n := Ascii.nat_of_ascii c in
  ((9 <=? n)%nat && (n <=? 13)%nat) || (n =? 32)%nat || (n =? 160)%nat.

(** The class [\d]. *)
Definition is_digit (c : ascii) : bool :=
  let n := Ascii.nat_of_ascii c in (48 <=? n)%nat && (n <=? 57)%nat.

Definition digit_value (c : ascii) : Z := Z.of_nat (Ascii.nat_of_ascii c) - 48.

Definition is_empty (s : string) : bool :=
  match s with EmptyString => true | String _ _ => false end.

(** A string is truthy when it is not empty. *)
Definition truthy (s : string) : bool := negb (is_empty s).

Fixpoint trimStart (s : string) : string :=
  match s with
  | EmptyString => EmptyString
  | String c s' => if is_whitespace c then trimStart s' else s
  end.

Fixpoint trimEnd (s : string) : string :=
  match s with
  | EmptyString => EmptyString
  | String c s' =>
      let t := trimEnd s' in
      if is_whitespace c && is_empty t then EmptyString else String c t
  end.

(** [s.trim()] *)
Definition trim (s : string) : string := trimEnd (trimStart s).

(** [s.split(sep)] for a separator of one character; the result is never
    the empty list ([String.prototype.split] of the empty string is the
    list of one empty string). *)
Fixpoint split (sep : ascii) (s : string) : list string :=
  match s with
  | EmptyString => [EmptyString]
  | String c s' =>
      if Ascii.eqb c sep then EmptyString :: split sep s'
      else match split sep s' with
           | f :: fs => String c f :: fs
           | [] => [String c EmptyString]
           end
  end.

Fixpoint drop_last_quote (s : string) : string :=
  match s with
  | EmptyString => EmptyString
  | String c EmptyString => if Ascii.eqb c quote then EmptyString else s
  | String c s' => String c (drop_last_quote s')
  end.

(** [s.replace] with the global pattern for a double quote at the start
    or at the end, and the empty replacement: a quote at the very start is
    removed, and so is a quote at the very end. *)
Definition strip_quotes (s : string) : string :=
  drop_last_quote
    match s with
    | String c s' => if Ascii.eqb c quote then s' else s
    | EmptyString => EmptyString
    end.

Fixpoint starts_with (p s : string) : bool :=
  match p, s with
  | EmptyString, _ => true
  | String a p', String b s' => Ascii.eqb a b && starts_with p' s'
  | String _ _, EmptyString => false
  end.

(** [s.includes(p)] *)
Fixpoint includes (p s : string) : bool :=
  starts_with p s ||
  match s with
  | EmptyString => false
  | String _ s' => includes p s'
  end.

Fixpoint take_digits (s : string) : string :=
  match s with
  | String c s' => if is_digit c then String c (take_digits s') else EmptyString
  | EmptyString => EmptyString
  end.

(** [s.match(/(\d+)/)]: the capture group of the leftmost match, which is
    the first maximal run of decimal digits; [None] is [null]. *)
Fixpoint match_digits (s : string) : option string :=
  match s with
  | EmptyString => None
  | String c s' => if is_digit c then Some (take_digits s) else match_digits s'
  end.

Fixpoint digits_value (acc : Z) (s : string) : Z :=
  match s with
  | String c s' => if is_digit c then digits_value (10 * acc + digit_value c) s' else acc
  | EmptyString => acc
  end.

(** [parseInt(s, 10)]: leading white space is skipped, a sign is read,
    then the longest prefix of digits; [None] is [NaN]. *)
Definition parseInt (s : string) : option Z :=
  let t := trimStart s in
  let '(neg, body) :=
    match t with
    | String c t' =>
        if Ascii.eqb c "-" then (true, t')
        else if Ascii.eqb c "+" then (false, t')
        else (false, t)
    | EmptyString => (false, t)
    end in
  if is_empty (take_digits body) then None
  else let v := digits_value 0 body in Some (if neg : bool then (- v)%Z else v).

(** [s.substring(a, b)], with the clamping and the swap of the
    arguments that [substring] performs. *)
Definition substring (a b : nat) (s : string) : string :=
  let len := String.length s in
  let a' := Nat.min a len in
  let b' := Nat.min b len in
  String.substring (Nat.min a' b') (Nat.max a' b' - Nat.min a' b') s.

(** [s.substring(a)] *)
Definition substring_from (a : nat) (s : string) : string :=
  substring a (String.length s) s.

(** *** Numbers *)

(** [Math.round]: the nearest integer, ties towards plus infinity. *)
Definition Math_round (q : Q) : Z := Qfloor (q + (1 # 2)).

Definition QZ (z : Z) : Q := inject_Z z.
Definition Qnat (n : nat) : Q := inject_Z (Z.of_nat n).

Inductive number : Type :=
  | Num (q : Q)
  | PInf
  | NInf
  | NaN.

Definition Qsign (q : Q) : comparison := (q ?= 0)%Q.

(** [x / y] *)
Definition number_div (x y : number) : number :=
  match x, y with
  | NaN, _ | _, NaN => NaN
  | Num a, Num b =>
      match Qsign b with
      | Eq => match Qsign a with Eq => NaN | Gt => PInf | Lt => NInf end
      | _ => Num (a / b)
      end
  | Num _, (PInf | NInf) => Num 0
  | (PInf | NInf), (PInf | NInf) => NaN
  | PInf, Num b => match Qsign b with Lt => NInf | _ => PInf end
  | NInf, Num b => match Qsign b with Lt => PInf | _ => NInf end
  end.

(** [x * y] *)
Definition number_mul (x y : number) : number :=
  match x, y with
  | NaN, _ | _, NaN => NaN
  | Num a, Num b => Num (a * b)
  | Num a, PInf | PInf, Num a =>
      match Qsign a with Eq => NaN | Gt => PInf | Lt => NInf end
  | Num a, NInf | NInf, Num a =>
      match Qsign a with Eq => NaN | Gt => NInf | Lt => PInf end
  | PInf, PInf | NInf, NInf => PInf
  | PInf, NInf | NInf, PInf => NInf
  end.

(** [Math.round(x)] on a number that may be infinite or [NaN]. *)
Definition number_round (x : number) : number :=
  match x with
  | Num q => Num (QZ (Math_round q))
  | _ => x
  end.


(** *** Arrays *)

(** The relative index of [Array.prototype.slice]. *)
Definition rel_index (len k : Z) : Z :=
  if (k <? 0)%Z then Z.max (len + k) 0 else Z.min k len.

(** [a.slice(start, end)] *)
Definition slice {A} (start end_ : Z) (a : list A) : list A :=
  let len := Z.of_nat (length a) in
  let from := rel_index len start in
  let to := rel_index len end_ in
  take (Z.to_nat (Z.max (to - from) 0)) (drop (Z.to_nat from) a).

(** [a.slice(start)] *)
Definition slice_from {A} (start : Z) (a : list A) : list A :=
  slice start (Z.of_nat (length a)) a.

(** [a.findIndex(p)], with [-1] when no element satisfies [p]. *)
Fixpoint findIndex {A} (p : A -> bool) (a : list A) : Z :=
  match a with
  | [] => (-1)%Z
  | x :: a' =>
      if p x then 0%Z
      else let r := findIndex p a' in if (r <? 0)%Z then (-1)%Z else (r + 1)%Z
  end.

(** [a[i]]; [None] is [undefined]. *)
Definition index {A} (a : list A) (i : Z) : option A :=
  if (i <? 0)%Z then None else a !! Z.to_nat i.

(** A stable insertion sort; [cmp a b] is the value the comparison
    function returns, [None] when it is [NaN] (which a sort treats as 0). *)
Fixpoint sort_insert {A} (cmp : A -> A -> option Z) (x : A) (l : list A) : list A :=
  match l with
  | [] => [x]
  | y :: l' =>
      match cmp x y with
      | Some d => if (0 <? d)%Z then y :: sort_insert cmp x l' else x :: l
      | None => x :: l
      end
  end.

Definition insertion_sort {A} (cmp : A -> A -> option Z) (l : list A) : list A :=
  foldr (sort_insert cmp) [] l.

(** *** Objects used as maps *)

(** The own properties of an ordinary object, in creation order. *)
Definition object (V : Type) : Type := list (string * V).

Fixpoint own_get {V} (k : string) (o : object V) : option V :=
  match o with
  | [] => None
  | (k', v) :: o' => if String.eqb k k' then Some v else own_get k o'
  end.

(** [o[k] = v] for a key that is an own property already, or a new one. *)
Fixpoint own_set {V} (k : string) (v : V) (o : object V) : object V :=
  match o with
  | [] => [(k, v)]
  | (k', v') :: o' =>
      if String.eqb k k' then (k, v) :: o' else (k', v') :: own_set k v o'
  end.

(** The property names every ordinary object inherits from
    [Object.prototype]; each of them reads as a function or an object,
    hence as a truthy value that has no property [feeds]. *)
Definition Object_prototype_names : list string :=
  [ "constructor"; "__defineGetter__"; "__defineSetter__"; "hasOwnProperty";
    "__lookupGetter__"; "__lookupSetter__"; "isPrototypeOf";
    "propertyIsEnumerable"; "toString"; "valueOf"; "__proto__";
    "toLocaleString" ].

Fixpoint all_digits (s : string) : bool :=
  match s with
  | EmptyString => true
  | String c s' => is_digit c && all_digits s'
  end.

(** A key is an array index when it is the canonical decimal form of an
    integer below [2^32 - 1]. *)
Definition array_index (k : string) : option Z :=
  match k with
  | EmptyString => None
  | String c k' =>
      if all_digits k && (negb (Ascii.eqb c "0") || is_empty k') then
        let v := digits_value 0 k in
        if (v <? 2 ^ 32 - 1)%Z then Some v else None
      else None
  end.

Definition is_array_index (k : string) : bool :=
  match array_index k with Some _ => true | None => false end.

Definition array_index_value (k : string) : Z := default 0%Z (array_index k).

(** [Object.keys(o)]: the array indices in ascending order, then the
    other names in creation order. *)
Definition Object_keys {V} (o : object V) : list string :=
  let names := o.*1 in
  insertion_sort
    (fun a b => Some (array_index_value a - array_index_value b)%Z)
    (filter (fun k => is_array_index k = true) names)
  ++ filter (fun k => is_array_index k <> true) names.

End JS.

(** ** The host *)

(** [Date_parse s] is [new Date(s).getTime()], with [None] for an invalid
    date.  [Array_sort cmp a] is the content of [a] after [a.sort(cmp)].
    A sort permutes; when the comparison function is the difference of an
    integer key and the array is ascending already, a sort, being stable,
    leaves it as it is.  On other comparison functions the order is the
    host's choice. *)
Class Host : Type := {
  Date_parse : string -> option Z;
  Array_sort : forall A : Type, (A -> A -> option Z) -> list A -> list A;
  Array_sort_perm :
    forall A (cmp : A -> A -> option Z) (l : list A), Array_sort A cmp l ≡ₚ l;
  Array_sort_ascending :
    forall A (key : A -> Z) (cmp : A -> A -> option Z) (l : list A),
      (forall a b, a ∈ l -> b ∈ l -> cmp a b = Some (key a - key b)%Z) ->
      Sorted Z.le (key <$> l) ->
      Array_sort A cmp l = l
}.

Arguments Array_sort {_ _} cmp l.

(** [new Date(x) - new Date(y)] *)
Definition Date_diff `{Host} (x y : string) : option Z :=
  match Date_parse x, Date_parse y with
  | Some a, Some b => Some (a - b)%Z
  | _, _ => None
  end.

(** ** Data model *)

Module Event.
Record t : Type := make {
  date : string;
  time : string;
  hour : option Z;  (* [None] is [NaN] *)
  amount : Z
}.
End Event.

Module DailyStat.
Record t : Type := make {
  date : string;
  feedCount : Z;
  totalAmount : Z;
  averageAmount : Q
}.
End DailyStat.

Module TrendPoint.
Record t : Type := make {
  recentAverage : Q;
  olderAverage : Q;
  percentChange : JS.number
}.
End TrendPoint.

Module TrendHistoryEntry.
Record t : Type := make {
  date : string;
  value : JS.number;
  recentAvg : Q;
  olderAvg : Q
}.
End TrendHistoryEntry.

Module TimeSlotStat.
Record t : Type := make {
  hour : string;
  count : Z;
  totalAmount : Z;
  percentage : Q;
  averageAmount : Q
}.
End TimeSlotStat.

Module OverallStats.
Record t : Type := make {
  totalBottleFeeds : Z;
  dateRange_start : string;
  dateRange_end : string;
  averageDailyFeeds : Q;
  averageFeedSize : Q
}.
End OverallStats.

Module AnalysisResult.
Record t : Type := make {
  overallStats : OverallStats.t;
  recentTrend : option TrendPoint.t;  (* [None] is [null] *)
  dailyStats : list DailyStat.t;
  allStats : list DailyStat.t;
  timeStats : list TimeSlotStat.t;
  rawFeeds : list Event.t
}.
End AnalysisResult.

(** The accumulators of the two grouping loops. *)
Module DayAcc.
Record t : Type := make {
  feeds : list Event.t;
  totalAmount : Z;
  count : Z
}.
End DayAcc.

Module SlotAcc.
Record t : Type := make {
  count : Z;
  totalAmount : Z
}.
End SlotAcc.

(** What the code throws. *)
Inductive exn : Type :=
  | Error (message : string)
  | TypeError (message : string).

Definition exn_message (e : exn) : string :=
  match e with Error m | TypeError m => m end.

(** ** The worker *)

Section Worker.

Context `{Host}.

(** *** [parseCSVLine] *)

(** The field pushed for the text between two separators. *)
Definition field_of (raw : string) : string := JS.trim (JS.strip_quotes raw).

(** One iteration of the loop over [i]; the state is [result],
    [startPos] and [inQuotes]. *)
Definition parseCSVLine_step (line : string)
    (st : list string * nat * bool) (i : nat) : list string * nat * bool :=
  let '(result, startPos, inQuotes) := st in
  match String.get i line with
  | Some c =>
      if Ascii.eqb c JS.quote then (result, startPos, negb inQuotes)
      else if Ascii.eqb c JS.comma && negb inQuotes then
        (result ++ [field_of (JS.substring startPos i line)], S i, inQuotes)
      else st
  | None => st
  end.

Definition parseCSVLine (line : string) : list string :=
  if JS.is_empty line || JS.is_empty (JS.trim line) then []
  else
    let '(result, startPos, _) :=
      foldl (parseCSVLine_step line) ([], 0, false) (seq 0 (String.length line)) in
    result ++ [field_of (JS.substring_from startPos line)].

(** *** [analyzeBottleFeeds] *)

(** The four column positions found in the header. *)
Record columns : Type := Columns {
  typeIndex : Z;
  startIndex : Z;
  startLocationIndex : Z;
  endConditionIndex : Z
}.

(** [lines[0].split(",").map(...)] *)
Definition parse_headers (line0 : string) : list string :=
  (fun header => JS.trim (JS.strip_quotes header)) <$> JS.split JS.comma line0.

Definition find_columns (headers : list string) : columns :=
  {| typeIndex := JS.findIndex (String.eqb "Type") headers;
     startIndex := JS.findIndex (String.eqb "Start") headers;
     startLocationIndex := JS.findIndex (String.eqb "Start Location") headers;
     endConditionIndex := JS.findIndex (String.eqb "End Condition") headers |}.

Definition column_missing (c : columns) : bool :=
  (typeIndex c =? -1)%Z || (startIndex c =? -1)%Z ||
  (startLocationIndex c =? -1)%Z || (endConditionIndex c =? -1)%Z.

(** [Math.max(typeIndex, startIndex, startLocationIndex, endConditionIndex)] *)
Definition max_column (c : columns) : Z :=
  Z.max (Z.max (Z.max (typeIndex c) (startIndex c)) (startLocationIndex c))
        (endConditionIndex c).

(** A field read by position is truthy when it is there and not empty. *)
Definition field_truthy (f : option string) : bool :=
  match f with Some s => JS.truthy s | None => false end.

(** The value of [amount] after the inner [if]: 0, or what [parseInt]
    makes of the first run of digits of the End Condition field. *)
Definition extract_amount (endCondition : option string) : option Z :=
  match endCondition with
  | Some s =>
      if JS.truthy s then
        match JS.match_digits s with
        | Some m => JS.parseInt m
        | None => Some 0%Z
        end
      else Some 0%Z
  | None => Some 0%Z
  end.

(** The object pushed for a row whose [dateTime] and [amount] are both
    truthy.  Nothing in this block throws on a string, so the [catch]
    around it is never entered. *)
Definition make_feed (dateTime : string) (amount : Z) : Event.t :=
  let dateParts := JS.split JS.space dateTime in
  let date := default EmptyString (dateParts !! 0) in
  let time :=
    match dateParts !! 1 with
    | Some t => if JS.truthy t then t else "00:00"
    | None => "00:00"
    end in
  let hour := JS.parseInt (default EmptyString (JS.split JS.colon time !! 0)) in
  {| Event.date := date; Event.time := time; Event.hour := hour;
     Event.amount := amount |}.

(** The body of the loop over the data rows: what row [line] adds to
    [bottleFeeds]. *)
Definition row_feed (c : columns) (line : string) : option Event.t :=
  if JS.is_empty (JS.trim line) then None
  else
    let values := parseCSVLine line in
    if (Z.of_nat (length values) <=? max_column c)%Z then None
    else
      let startLocation := JS.index values (startLocationIndex c) in
      if field_truthy startLocation &&
         JS.includes "Bottle" (default EmptyString startLocation)
      then
        let dateTime := JS.index values (startIndex c) in
        let amount := extract_amount (JS.index values (endConditionIndex c)) in
        match dateTime, amount with
        | Some dt, Some a =>
            if JS.truthy dt && negb (a =? 0)%Z then Some (make_feed dt a)
            else None
        | _, _ => None
        end
      else None.

Definition collect_feeds (c : columns) (rows : list string) : list Event.t :=
  omap (row_feed c) rows.

(** The comparison function of [bottleFeeds.sort]. *)
Definition feed_compare (a b : Event.t) : option Z :=
  Date_diff (Event.date a ++ " " ++ Event.time a)
            (Event.date b ++ " " ++ Event.time b).

(** The comparison function of [allStats.sort]. *)
Definition stat_compare (a b : DailyStat.t) : option Z :=
  Date_diff (DailyStat.date a) (DailyStat.date b).

Definition V8_push_of_undefined : string :=
  "Cannot read properties of undefined (reading 'push')".

(** One iteration of the loop that fills [feedsByDate].  A date that is
    no own property but a name of [Object.prototype] reads as a truthy
    value without [feeds], and [push] on it throws. *)
Definition group_feed (feedsByDate : JS.object DayAcc.t) (feed : Event.t)
    : exn + JS.object DayAcc.t :=
  let date := Event.date feed in
  let add (acc : DayAcc.t) :=
    {| DayAcc.feeds := DayAcc.feeds acc ++ [feed];
       DayAcc.totalAmount := (DayAcc.totalAmount acc + Event.amount feed)%Z;
       DayAcc.count := (DayAcc.count acc + 1)%Z |} in
  match JS.own_get date feedsByDate with
  | Some acc => inr (JS.own_set date (add acc) feedsByDate)
  | None =>
      if bool_decide (date ∈ JS.Object_prototype_names)
      then inl (TypeError V8_push_of_undefined)
      else inr (JS.own_set date
                  (add {| DayAcc.feeds := []; DayAcc.totalAmount := 0;
                          DayAcc.count := 0 |})
                  feedsByDate)
  end.

Fixpoint group_feeds (feedsByDate : JS.object DayAcc.t) (feeds : list Event.t)
    : exn + JS.object DayAcc.t :=
  match feeds with
  | [] => inr feedsByDate
  | feed :: feeds' =>
      match group_feed feedsByDate feed with
      | inl e => inl e
      | inr feedsByDate' => group_feeds feedsByDate' feeds'
      end
  end.

(** [Math.round(x * 10) / 10], the rounding to one decimal that the code
    writes out at each use. *)
Definition round1 (x : Q) : Q := (JS.QZ (JS.Math_round (x * 10)) / 10)%Q.

(** The entry pushed on [allStats] for the key [date]. *)
Definition daily_stat (feedsByDate : JS.object DayAcc.t) (date : string)
    : DailyStat.t :=
  let stats :=
    default {| DayAcc.feeds := []; DayAcc.totalAmount := 0; DayAcc.count := 0 |}
            (JS.own_get date feedsByDate) in
  {| DailyStat.date := date;
     DailyStat.feedCount := DayAcc.count stats;
     DailyStat.totalAmount := DayAcc.totalAmount stats;
     DailyStat.averageAmount :=
       round1 (JS.QZ (DayAcc.totalAmount stats) / JS.QZ (DayAcc.count stats)) |}.

(** The loops that add up [averageAmount]. *)
Definition sum_averageAmount (days : list DailyStat.t) : Q :=
  foldl (fun s d => (s + DailyStat.averageAmount d)%Q) 0%Q days.

(** [Math.round((recentAvg - olderAvg) / olderAvg * 1000) / 10] *)
Definition percent_change (recentAvg olderAvg : Q) : JS.number :=
  JS.number_div
    (JS.number_round
       (JS.number_mul
          (JS.number_div (JS.Num (recentAvg - olderAvg)) (JS.Num olderAvg))
          (JS.Num 1000)))
    (JS.Num 10).


Definition mean_averageAmount (days : list DailyStat.t) : Q :=
  (sum_averageAmount days / JS.Qnat (length days))%Q.

(** The block that sets [recentTrend]. *)
Definition recent_trend (allStats : list DailyStat.t) : option TrendPoint.t :=
  if (14 <=? length allStats)%nat then
    let recentDays := JS.slice_from (-7) allStats in
    let olderDays := JS.slice (-14) (-7) allStats in
    let recentAvg := mean_averageAmount recentDays in
    let olderAvg := mean_averageAmount olderDays in
    Some {| TrendPoint.recentAverage := round1 recentAvg;
            TrendPoint.olderAverage := round1 olderAvg;
            TrendPoint.percentChange := percent_change recentAvg olderAvg |}
  else None.

(** The initial value of [timeSlots]. *)
Definition timeSlots_init : JS.object SlotAcc.t :=
  [ ("12am-6am", {| SlotAcc.count := 0; SlotAcc.totalAmount := 0 |});
    ("6am-12pm", {| SlotAcc.count := 0; SlotAcc.totalAmount := 0 |});
    ("12pm-6pm", {| SlotAcc.count := 0; SlotAcc.totalAmount := 0 |});
    ("6pm-12am", {| SlotAcc.count := 0; SlotAcc.totalAmount := 0 |}) ].

(** [timeSlots[slot].count++; timeSlots[slot].totalAmount += amount] *)
Definition slot_add (slot : string) (amount : Z) (timeSlots : JS.object SlotAcc.t)
    : JS.object SlotAcc.t :=
  match JS.own_get slot timeSlots with
  | Some acc =>
      JS.own_set slot
        {| SlotAcc.count := (SlotAcc.count acc + 1)%Z;
           SlotAcc.totalAmount := (SlotAcc.totalAmount acc + amount)%Z |}
        timeSlots
  | None => timeSlots
  end.

(** [lo <= hour && hour < hi]; every comparison with [NaN] is false. *)
Definition hour_within (lo hi : Z) (hour : option Z) : bool :=
  match hour with
  | Some h => (lo <=? h)%Z && (h <? hi)%Z
  | None => false
  end.

(** The slot chosen by the chain of [if ... else if ... else]. *)
Definition slot_of (feedItem : Event.t) : string :=
  if hour_within 0 6 (Event.hour feedItem) then "12am-6am"
  else if hour_within 6 12 (Event.hour feedItem) then "6am-12pm"
  else if hour_within 12 18 (Event.hour feedItem) then "12pm-6pm"
  else "6pm-12am".

Definition fill_timeSlots (bottleFeeds : list Event.t) : JS.object SlotAcc.t :=
  foldl (fun timeSlots feedItem =>
           slot_add (slot_of feedItem) (Event.amount feedItem) timeSlots)
        timeSlots_init bottleFeeds.

(** The entry pushed on [timeStats] for the key [slot]. *)
Definition time_stat (timeSlots : JS.object SlotAcc.t) (total : nat) (slot : string)
    : TimeSlotStat.t :=
  let slotStats :=
    default {| SlotAcc.count := 0; SlotAcc.totalAmount := 0 |}
            (JS.own_get slot timeSlots) in
  {| TimeSlotStat.hour := slot;
     TimeSlotStat.count := SlotAcc.count slotStats;
     TimeSlotStat.totalAmount := SlotAcc.totalAmount slotStats;
     TimeSlotStat.percentage :=
       (JS.QZ (JS.Math_round
                 (JS.QZ (SlotAcc.count slotStats) / JS.Qnat total * 1000)) / 10)%Q;
     TimeSlotStat.averageAmount :=
       if (0 <? SlotAcc.count slotStats)%Z
       then round1 (JS.QZ (SlotAcc.totalAmount slotStats)
                    / JS.QZ (SlotAcc.count slotStats))
       else 0%Q |}.

(** The loop that adds up [amount]. *)
Definition sum_amount (feeds : list Event.t) : Z :=
  foldl (fun s f => (s + Event.amount f)%Z) 0%Z feeds.

(** The rest of the [try] block once [feedsByDate] is filled: the daily
    statistics, the trend, the time slots and the object returned. *)
Definition summarize (bottleFeeds : list Event.t) (feedsByDate : JS.object DayAcc.t)
    : AnalysisResult.t :=
  let dateKeys := JS.Object_keys feedsByDate in
  let allStats := Array_sort stat_compare (daily_stat feedsByDate <$> dateKeys) in
  let recentTrend := recent_trend allStats in
  let timeSlots := fill_timeSlots bottleFeeds in
  let timeStats :=
    time_stat timeSlots (length bottleFeeds) <$> JS.Object_keys timeSlots in
  let totalAmount := sum_amount bottleFeeds in
  {| AnalysisResult.overallStats :=
       {| OverallStats.totalBottleFeeds := Z.of_nat (length bottleFeeds);
          OverallStats.dateRange_start :=
            from_option Event.date "N/A" (head bottleFeeds);
          OverallStats.dateRange_end :=
            from_option Event.date "N/A" (last bottleFeeds);
          OverallStats.averageDailyFeeds :=
            round1 (JS.Qnat (length bottleFeeds)
                    / JS.Qnat (length (JS.Object_keys feedsByDate)));
          OverallStats.averageFeedSize :=
            round1 (JS.QZ totalAmount / JS.Qnat (length bottleFeeds)) |};
     AnalysisResult.recentTrend := recentTrend;
     AnalysisResult.dailyStats := JS.slice_from (-7) allStats;
     AnalysisResult.allStats := allStats;
     AnalysisResult.timeStats := timeStats;
     AnalysisResult.rawFeeds := bottleFeeds |}.

(** The body of the [try] block. *)
Definition analyze (csvText : string) : exn + AnalysisResult.t :=
  let lines := JS.split JS.newline csvText in
  if (length lines <? 2)%nat then
    inl (Error "CSV data appears to be empty or invalid")
  else
    let headers := parse_headers (default EmptyString (lines !! 0)) in
    let c := find_columns headers in
    if column_missing c then
      inl (Error "Required columns not found in CSV data")
    else
      let bottleFeeds := collect_feeds c (drop 1 lines) in
      if (length bottleFeeds =? 0)%nat then
        inl (Error "No valid bottle feeds found in the CSV data")
      else
        let bottleFeeds := Array_sort feed_compare bottleFeeds in
        match group_feeds [] bottleFeeds with
        | inl e => inl e
        | inr feedsByDate => inr (summarize bottleFeeds feedsByDate)
        end.

(** [analyzeBottleFeeds]: whatever the body throws is caught and thrown
    again as an [Error] whose message names the cause. *)
Definition analyzeBottleFeeds (csvText : string) : exn + AnalysisResult.t :=
  match analyze csvText with
  | inl error => inl (Error ("Failed to analyze CSV: " ++ exn_message error))
  | inr result => inr result
  end.

(** *** [calculateDailyTrends] *)

(** The body of the loop for the index [i] of [sortedStats]: the entries
    it pushes on [trendHistory]. *)
Definition trend_at (sortedStats : list DailyStat.t) (i : nat)
    : list TrendHistoryEntry.t :=
  let recentDays := JS.slice (Z.of_nat i - 6) (Z.of_nat i + 1) sortedStats in
  let olderDays :=
    JS.slice (Z.max 0 (Z.of_nat i - 13)) (Z.of_nat i - 6) sortedStats in
  if (0 <? length recentDays)%nat && (0 <? length olderDays)%nat then
    let recentAvg := mean_averageAmount recentDays in
    let olderAvg := mean_averageAmount olderDays in
    [ {| TrendHistoryEntry.date :=
           from_option DailyStat.date EmptyString (sortedStats !! i);
         TrendHistoryEntry.value := percent_change recentAvg olderAvg;
         TrendHistoryEntry.recentAvg := round1 recentAvg;
         TrendHistoryEntry.olderAvg := round1 olderAvg |} ]
  else [].

(** The comparison function of the sort in [calculateDailyTrends]. *)
Definition stat_compare_time (a b : DailyStat.t) : option Z :=
  Date_diff (DailyStat.date a) (DailyStat.date b).

(** The loop over [i] from 13, on a sorted copy. *)
Definition trends_of_sorted (sortedStats : list DailyStat.t)
    : list TrendHistoryEntry.t :=
  flat_map (trend_at sortedStats) (seq 13 (length sortedStats - 13)).

Definition calculateDailyTrends (allStats : list DailyStat.t)
    : list TrendHistoryEntry.t :=
  if (length allStats <? 14)%nat then []
  else trends_of_sorted (Array_sort stat_compare_time allStats).

End Worker.

(** ** Arrays as shared objects

    [calculateDailyTrends] receives a reference to the array that the
    analysis result holds in [allStats].  Here arrays of daily statistics
    live in a store; [slice] allocates a new array and [sort] rewrites the
    array it is called on. *)

Module Ref.

Definition loc : Type := positive.
Abbreviation store := (gmap loc (list DailyStat.t)).

Definition M (A : Type) : Type := store -> A * store.

#[global] Instance M_ret : MRet M := fun A (x : A) h => (x, h).

#[global] Instance M_bind : MBind M :=
  fun A B (k : A -> M B) (m : M A) h => let '(x, h') := m h in k x h'.

Definition ret {A} (x : A) : M A := mret x.

(** A new array. *)
Definition alloc (a : list DailyStat.t) : M loc :=
  fun h => let l := fresh (dom h) in (l, <[l := a]> h).

(** The content of an array. *)
Definition read (l : loc) : M (list DailyStat.t) :=
  fun h => (default [] (h !! l), h).

(** [a.slice(start, end)] *)
Definition slice (l : loc) (start end_ : Z) : M loc :=
  a ← read l; alloc (JS.slice start end_ a).

(** [a.slice()] *)
Definition slice_all (l : loc) : M loc :=
  a ← read l; alloc (JS.slice_from 0 a).

Fixpoint for_each {A} (body : nat -> M (list A)) (indices : list nat) : M (list A) :=
  match indices with
  | [] => ret []
  | i :: indices' =>
      pushed ← body i;
      rest ← for_each body indices';
      ret (pushed ++ rest)
  end.

Section WithHost.

Context `{Host}.

(** [a.sort(cmp)]: in place, and the value is [a] itself. *)
Definition sort (cmp : DailyStat.t -> DailyStat.t -> option Z) (l : loc) : M loc :=
  fun h => (l, alter (Array_sort cmp) l h).

Definition trend_at (sortedStats : loc) (i : nat) : M (list TrendHistoryEntry.t) :=
  recentDays ← slice sortedStats (Z.of_nat i - 6) (Z.of_nat i + 1);
  olderDays ← slice sortedStats (Z.max 0 (Z.of_nat i - 13)) (Z.of_nat i - 6);
  recent ← read recentDays;
  older ← read olderDays;
  sorted ← read sortedStats;
  ret (if (0 <? length recent)%nat && (0 <? length older)%nat then
         let recentAvg := mean_averageAmount recent in
         let olderAvg := mean_averageAmount older in
         [ {| TrendHistoryEntry.date :=
                from_option DailyStat.date EmptyString (sorted !! i);
              TrendHistoryEntry.value := percent_change recentAvg olderAvg;
              TrendHistoryEntry.recentAvg := round1 recentAvg;
              TrendHistoryEntry.olderAvg := round1 olderAvg |} ]
       else []).

Definition calculateDailyTrends (allStats : loc) : M (list TrendHistoryEntry.t) :=
  a ← read allStats;
  if (length a <? 14)%nat then ret []
  else
    copy ← slice_all allStats;
    sortedStats ← sort stat_compare_time copy;
    sorted ← read sortedStats;
    for_each (trend_at sortedStats) (seq 13 (length sorted - 13)).

(** The part of [handleDataRequest] between the analysis and the
    serialization; [analyzeBottleFeeds] sets no [babyWeight], so the
    default applies. *)
Record response : Type := Response {
  allStats : loc;
  trendHistory : list TrendHistoryEntry.t;
  babyWeight : Q;
  recommendedIntake : Q
}.

Definition handleDataRequest_extend (analysisResults_allStats : loc) : M response :=
  history ← calculateDailyTrends analysisResults_allStats;
  ret {| allStats := analysisResults_allStats;
         trendHistory := history;
         babyWeight := 4;
         recommendedIntake := 4 * 150 |}.

End WithHost.

End Ref.

(** ** A reference host

    Dates of the form [YYYY-MM-DD], with an optional [ HH:MM], counted in
    milliseconds; the sort is the stable insertion sort. *)

Module Reference.

(** Days since 1970-01-01 of a civil date. *)
Definition days_from_civil (y m d : Z) : Z :=
  let y' := (if m <=? 2 then y - 1 else y)%Z in
  let era := (y' / 400)%Z in
  let yoe := (y' - era * 400)%Z in
  let doy := ((153 * (if 2 <? m then m - 3 else m + 9) + 2) / 5 + d - 1)%Z in
  let doe := (yoe * 365 + yoe / 4 - yoe / 100 + doy)%Z in
  (era * 146097 + doe - 719468)%Z.

Definition decimal (s : string) : option Z :=
  if JS.is_empty s || negb (JS.all_digits s) then None
  else Some (JS.digits_value 0 s).

Definition within (lo hi : Z) (v : option Z) : option Z :=
  match v with
  | Some x => if (lo <=? x)%Z && (x <=? hi)%Z then Some x else None
  | None => None
  end.

Definition parse_day (s : string) : option Z :=
  match JS.split "-" s with
  | [y; m; d] =>
      match decimal y, within 1 12 (decimal m), within 1 31 (decimal d) with
      | Some y, Some m, Some d => Some (days_from_civil y m d)
      | _, _, _ => None
      end
  | _ => None
  end.

Definition parse_minutes (s : string) : option Z :=
  match JS.split JS.colon s with
  | [h; m] =>
      match within 0 23 (decimal h), within 0 59 (decimal m) with
      | Some h, Some m => Some (h * 60 + m)%Z
      | _, _ => None
      end
  | _ => None
  end.

Definition Date_parse (s : string) : option Z :=
  match JS.split JS.space s with
  | [d] =>
      match parse_day d with
      | Some days => Some (days * 86400000)%Z
      | None => None
      end
  | [d; t] =>
      match parse_day d, parse_minutes t with
      | Some days, Some minutes => Some (days * 86400000 + minutes * 60000)%Z
      | _, _ => None
      end
  | _ => None
  end.

End Reference.

(** ** The vocabulary of the properties *)

(** The accumulator of the events [fs] of one date. *)
Definition acc_of (fs : list Event.t) : option DayAcc.t :=
  match fs with
  | [] => None
  | _ => Some {| DayAcc.feeds := fs; DayAcc.totalAmount := sum_amount fs;
                 DayAcc.count := Z.of_nat (length fs) |}
  end.

(** The events of the date [k]. *)
Definition on_date (k : string) (feeds : list Event.t) : list Event.t :=
  filter (fun e => Event.date e = k) feeds.

(** What [feedsByDate] holds once the events [seen] went through the loop. *)
Definition grouped (seen : list Event.t) (feedsByDate : JS.object DayAcc.t) : Prop :=
  NoDup feedsByDate.*1 /\
  forall k, JS.own_get k feedsByDate = acc_of (on_date k seen).

(** The sum of a list of integers. *)
Definition Zsum (l : list Z) : Z := foldr Z.add 0%Z l.

(** The rows of an input, the columns its header gives and the events
    its data rows give, as [analyzeBottleFeeds] computes them. *)
Definition input_lines (csvText : string) : list string :=
  JS.split JS.newline csvText.

Definition input_headers (csvText : string) : list string :=
  parse_headers (default EmptyString (input_lines csvText !! 0)).

Definition input_columns (csvText : string) : columns :=
  find_columns (input_headers csvText).

Definition input_feeds (csvText : string) : list Event.t :=
  collect_feeds (input_columns csvText) (drop 1 (input_lines csvText)).





(** The trend anchored to the entry [i] of an ascending sequence: the
    mean of the seven entries ending at [i] against the mean of the seven
    entries before them. *)
Definition trend_entry (stats : list DailyStat.t) (i : nat) : TrendHistoryEntry.t :=
  let recent := mean_averageAmount (take 7 (drop (i - 6) stats)) in
  let older := mean_averageAmount (take 7 (drop (i - 13) stats)) in
  {| TrendHistoryEntry.date := from_option DailyStat.date EmptyString (stats !! i);
     TrendHistoryEntry.value := percent_change recent older;
     TrendHistoryEntry.recentAvg := round1 recent;
     TrendHistoryEntry.olderAvg := round1 older |}.

Section Ascending.

Context `{Host}.

(** The dates all parse, to times that do not decrease. *)
Definition ascending_dates (stats : list DailyStat.t) : Prop :=
  exists times : list Z,
    (fun d => Date_parse (DailyStat.date d)) <$> stats = Some <$> times /\
    Sorted Z.le times.

End Ascending.

(** The commas of a row that stand outside double quotes, and whether a
    quote is still open at the end of the row. *)
Fixpoint unquoted_commas (inQuotes : bool) (s : string) : nat :=
  match s with
  | EmptyString => 0
  | String c s' =>
      if Ascii.eqb c JS.quote then unquoted_commas (negb inQuotes) s'
      else if Ascii.eqb c JS.comma && negb inQuotes then S (unquoted_commas inQuotes s')
      else unquoted_commas inQuotes s'
  end.

Fixpoint quote_open (inQuotes : bool) (s : string) : bool :=
  match s with
  | EmptyString => inQuotes
  | String c s' =>
      quote_open (if Ascii.eqb c JS.quote then negb inQuotes else inQuotes) s'
  end.

(** The loop of [parseCSVLine] from position [i], read along the
    characters [rest] that remain. *)
Fixpoint scan (line : string) (i : nat) (rest : string)
    (st : list string * nat * bool) : list string * nat * bool :=
  match rest with
  | EmptyString => st
  | String _ rest' => scan line (S i) rest' (parseCSVLine_step line st i)
  end.

(** [sub] occurs in [s]. *)
Definition contains (sub s : string) : Prop :=
  exists pre post : string, s = (pre ++ sub ++ post)%string.

(** No character of [s] is a decimal digit. *)
Fixpoint no_digit (s : string) : bool :=
  match s with
  | EmptyString => true
  | String c s' => negb (JS.is_digit c) && no_digit s'
  end.

(** [run] is the first maximal run of decimal digits of [s]. *)
Definition first_digit_run (s run : string) : Prop :=
  exists pre rest : string,
    s = (pre ++ run ++ rest)%string /\
    no_digit pre = true /\
    run <> EmptyString /\
    JS.all_digits run = true /\
    match rest with
    | String c _ => JS.is_digit c = false
    | EmptyString => True
    end.

(** The part of [s] before the first [sep]. *)
Fixpoint before (sep : ascii) (s : string) : string :=
  match s with
  | EmptyString => EmptyString
  | String c s' => if Ascii.eqb c sep then EmptyString else String c (before sep s')
  end.

(** [sep] occurs in [s]. *)
Fixpoint has_char (sep : ascii) (s : string) : bool :=
  match s with
  | EmptyString => false
  | String c s' => Ascii.eqb c sep || has_char sep s'
  end.

(** The four columns were found. *)
Definition columns_present (c : columns) : Prop :=
  (0 <= typeIndex c)%Z /\ (0 <= startIndex c)%Z /\
  (0 <= startLocationIndex c)%Z /\ (0 <= endConditionIndex c)%Z.

(** The names looked up in the header. *)
Definition required_columns : list string :=
  ["Type"; "Start"; "Start Location"; "End Condition"].

(** The two errors thrown before any row is read, and the error thrown
    when no row gave an event, as [analyzeBottleFeeds] throws them again. *)
Definition structural_error (e : exn) : Prop :=
  e = Error "Failed to analyze CSV: CSV data appears to be empty or invalid" \/
  e = Error "Failed to analyze CSV: Required columns not found in CSV data".

Definition no_data_error : exn :=
  Error "Failed to analyze CSV: No valid bottle feeds found in the CSV data".

(** *** Inputs used as examples *)

(** The header of the README. *)
Definition header_line : string := "Type,Start,Start Location,End Condition".

(** A data row whose time of day has the hour 99. *)
Definition csv_hour_99 : string :=
  header_line ++ String JS.newline "Feed,2023-03-01 99:00,Bottle,120ml".

(** A header whose first name is quoted and holds a comma, and a data row
    shaped like it. *)
Definition header_quoted_comma : string :=
  String JS.quote "A,B" ++ String JS.quote ",Type,Start,Start Location,End Condition".

Definition csv_quoted_comma : string :=
  header_quoted_comma ++ String JS.newline
  (String JS.quote "x,y" ++ String JS.quote ",Feed,2023-03-01 08:00,Bottle,120ml").

(** The two rows of the README. *)
Definition csv_readme : string :=
  header_line ++ String JS.newline "Feed,2023-03-01 08:00,Bottle,120ml"
              ++ String JS.newline "Feed,2023-03-01 12:30,Bottle,150ml".

Definition march_days : list string :=
  ["01"; "02"; "03"; "04"; "05"; "06"; "07"; "08"; "09"; "10"; "11"; "12"; "13"; "14"].

(** Fourteen days with one feed of 100 ml each. *)
Definition csv_14_days : string :=
  foldl (fun (text day : string) =>
           (text ++ String JS.newline ("Feed,2023-03-" ++ day ++ " 08:00,Bottle,100ml"))%string)
        header_line march_days.

(** Fifteen days of statistics in ascending order. *)
Definition stats_15_days : list DailyStat.t :=
  (fun day : string =>
     {| DailyStat.date := "2023-03-" ++ day; DailyStat.feedCount := 1;
        DailyStat.totalAmount := 100; DailyStat.averageAmount := 100 |})
  <$> (march_days ++ ["15"]).

(** The columns of [header_line]. *)
Definition columns_0123 : columns :=
  {| typeIndex := 0; startIndex := 1; startLocationIndex := 2; endConditionIndex := 3 |}.

(** A row whose third field opens a quote that is never closed. *)
Definition row_unbalanced : string :=
  "Feed,2023-03-01 08:00," ++ String JS.quote "Bottle,120ml".

(** ** The rest of the two workers *)

(** *** Primitives of the upload worker *)

Module JSX.

(** [c.toLowerCase()] on the code points below 256: the capital letters
    of ASCII and of Latin-1 move up by 32. *)
Definition lower_char (c : ascii) : ascii :=
  let n := Ascii.nat_of_ascii c in
  if ((65 <=? n)%nat && (n <=? 90)%nat) ||
     ((192 <=? n)%nat && (n <=? 222)%nat && negb (n =? 215)%nat)
  then Ascii.ascii_of_nat (n + 32)
  else c.

(** [s.toLowerCase()] *)
Fixpoint toLowerCase (s : string) : string :=
  match s with
  | EmptyString => EmptyString
  | String c s' => String (lower_char c) (toLowerCase s')
  end.

(** [s.endsWith(p)] *)
Fixpoint endsWith (p s : string) : bool :=
  String.eqb p s ||
  match s with
  | EmptyString => false
  | String _ s' => endsWith p s'
  end.

End JSX.

(** *** The upload worker: [validateCSV] and [handleUpload] *)

Definition validateCSV (content : string) : bool :=
  let lines := JS.split JS.newline content in
  if (length lines <? 2)%nat then false
  else
    let headers := JSX.toLowerCase (default EmptyString (lines !! 0)) in
    JS.includes "type" headers && JS.includes "start" headers &&
    JS.includes "location" headers && JS.includes "condition" headers.

(** An R2 bucket: the text stored under each key.  [None] for the
    binding is an environment without [R2_BUCKET]. *)
Abbreviation bucket := (gmap string string).

(** The [File] found under the form field [file]: its name, its size
    in bytes and what [file.text()] gives. *)
Record upload_file : Type := UploadFile {
  file_name : string;
  file_size : nat;
  file_text : string
}.

(** What [handleUpload] reads of a request: the Content-Type header,
    and what [request.formData()] gives, either the message of the
    exception it throws or the [File] under [file], if there is one. *)
Record upload_request : Type := UploadRequest {
  content_type : option string;
  form_data : string + option upload_file
}.

Inductive upload_body : Type :=
  | UploadError (error : string)
  | UploadDone (filename : string) (size : nat) (timestamp : string).

Definition V8_put_of_undefined : string :=
  "Cannot read properties of undefined (reading 'put')".

(** [handleUpload]: the status and the body of the response, and the
    bucket afterwards.  [now] is the time stamp of the response.  A
    [put] that the bucket refuses is outside the model. *)
Definition handleUpload (now : string) (R2_BUCKET : option bucket)
    (request : upload_request) : nat * upload_body * option bucket :=
  let contentType := content_type request in
  if negb (match contentType with
           | Some ct => JS.truthy ct && JS.includes "multipart/form-data" ct
           | None => false
           end)
  then (400, UploadError "Invalid content type, must be multipart/form-data", R2_BUCKET)
  else
    match form_data request with
    | inl message => (500, UploadError ("Error processing upload: " ++ message), R2_BUCKET)
    | inr None => (400, UploadError "No file provided", R2_BUCKET)
    | inr (Some file) =>
        if negb (JSX.endsWith ".csv" (file_name file))
        then (400, UploadError "File must be a CSV", R2_BUCKET)
        else
          let fileContent := file_text file in
          if negb (validateCSV fileContent)
          then (400, UploadError "Invalid CSV format", R2_BUCKET)
          else
            match R2_BUCKET with
            | None =>
                (500, UploadError ("Error processing upload: " ++ V8_put_of_undefined),
                 R2_BUCKET)
            | Some b =>
                (200, UploadDone (file_name file) (file_size file) now,
                 Some (<["feeding-data.csv" := fileContent]> b))
            end
    end.

(** *** The data worker: [handleDataRequest] *)

(** The object serialized for a successful data request. *)
Record data_result : Type := DataResult {
  analysisResults : AnalysisResult.t;
  timestamp : string;
  trendHistory : list TrendHistoryEntry.t;
  babyWeight : Q;
  recommendedIntake : Q
}.

Inductive data_body : Type :=
  | DataError (error : string) (details : option string)
  | DataOk (result : data_result).

Section DataWorker.

Context `{Host}.

(** [handleDataRequest]: the status and the body of the response.  The
    object [analyzeBottleFeeds] returns has no [babyWeight], so the
    default weight is set.  The fields [stack] and [bucketName] of the
    error bodies, values of the host, are left out. *)
Definition handleDataRequest (now : string) (R2_BUCKET : option bucket)
    : nat * data_body :=
  match R2_BUCKET with
  | None =>
      (500, DataError "R2 bucket binding not configured"
              (Some "Please configure the R2_BUCKET binding in your Worker settings"))
  | Some b =>
      match b !! "josie-feeding-data.csv" with
      | None => (404, DataError "CSV file not found in R2 storage" None)
      | Some csvText =>
          match analyzeBottleFeeds csvText with
          | inl error =>
              (500, DataError "Error processing data" (Some (exn_message error)))
          | inr analysisResults =>
              let babyWeight := 4%Q in
              (200, DataOk
                 {| analysisResults := analysisResults;
                    timestamp := now;
                    trendHistory :=
                      calculateDailyTrends (AnalysisResult.allStats analysisResults);
                    babyWeight := babyWeight;
                    recommendedIntake := (babyWeight * 150)%Q |})
          end
      end
  end.

End DataWorker.

(** *** Vocabulary *)

(** The pieces of a row between the commas that stand outside quotes. *)
Definition cons_head (c : ascii) (pieces : list string) : list string :=
  match pieces with
  | f :: fs => String c f :: fs
  | [] => [String c EmptyString]
  end.

Fixpoint split_unquoted (inQuotes : bool) (s : string) : list string :=
  match s with
  | EmptyString => [EmptyString]
  | String c s' =>
      if Ascii.eqb c JS.quote then cons_head c (split_unquoted (negb inQuotes) s')
      else if Ascii.eqb c JS.comma && negb inQuotes then
        EmptyString :: split_unquoted inQuotes s'
      else cons_head c (split_unquoted inQuotes s')
  end.

(** [fields.join(",")] *)
Fixpoint join_commas (fields : list string) : string :=
  match fields with
  | [] => EmptyString
  | [f] => f
  | f :: fs => (f ++ String JS.comma (join_commas fs))%string
  end.

(** [f] between two double quotes. *)
Definition quoted (f : string) : string :=
  String JS.quote (f ++ String JS.quote EmptyString)%string.

(** A piece put in front of the first of the pieces that follow. *)
Definition glue (cur : string) (pieces : list string) : list string :=
  match pieces with
  | f :: fs => (cur ++ f)%string :: fs
  | [] => [cur]
  end.

(** What [parseCSVLine] returns from the state its loop ends in. *)
Definition finish (line : string) (st : list string * nat * bool) : list string :=
  st.1.1 ++ [field_of (JS.substring_from st.1.2 line)].

(** *** Further inputs *)



(** * Properties *)

(** ** The insertion sort of the reference host *)

Section InsertionSort.

Context {A : Type} (cmp : A -> A -> option Z).

Lemma sort_insert_perm (x : A) (l : list A) : JS.sort_insert cmp x l ≡ₚ x :: l.
Proof.
  induction l as [|y l IH]; simpl; [done|].
  destruct (cmp x y) as [d|]; [|done].
  destruct (0 <? d)%Z; [|done].
  rewrite IH. apply Permutation_swap.
Qed.

Lemma insertion_sort_perm (l : list A) : JS.insertion_sort cmp l ≡ₚ l.
Proof.
  unfold JS.insertion_sort.
  induction l as [|x l IH]; simpl; [done|].
  rewrite sort_insert_perm. by rewrite IH.
Qed.

Lemma insertion_sort_ascending (key : A -> Z) (l : list A) :
  (forall a b, a ∈ l -> b ∈ l -> cmp a b = Some (key a - key b)%Z) ->
  Sorted Z.le (key <$> l) ->
  JS.insertion_sort cmp l = l.
Proof.
  unfold JS.insertion_sort.
  induction l as [|x l IH]; intros Hcmp Hs; simpl; [done|].
  rewrite fmap_cons in Hs. apply Sorted_inv in Hs as [Hs Hhd].
  rewrite IH; [|intros a b Ha Hb; apply Hcmp; by constructor|done].
  destruct l as [|y l]; simpl; [done|].
  rewrite Hcmp; [|by constructor|by constructor; constructor].
  rewrite fmap_cons in Hhd. apply HdRel_inv in Hhd.
  destruct (0 <? key x - key y)%Z eqn:E; [|done].
  apply Z.ltb_lt in E. lia.
Qed.

End InsertionSort.

Definition reference_host : Host := {|
  Date_parse := Reference.Date_parse;
  Array_sort := fun A cmp l => JS.insertion_sort cmp l;
  Array_sort_perm := fun A cmp l => insertion_sort_perm cmp l;
  Array_sort_ascending := fun A key cmp l => insertion_sort_ascending cmp key l
|}.

(** ** The primitives *)

Section Primitives.

Lemma findIndex_lower {A} (p : A -> bool) (a : list A) : (-1 <= JS.findIndex p a)%Z.
Proof.
  induction a as [|x a IH]; simpl; [lia|].
  destruct (p x); [lia|]. destruct (JS.findIndex p a <? 0)%Z eqn:E; lia.
Qed.

Lemma findIndex_missing {A} (p : A -> bool) (a : list A) :
  JS.findIndex p a = (-1)%Z <-> Forall (fun x => p x = false) a.
Proof.
  induction a as [|x a IH]; simpl; [by split|].
  pose proof (findIndex_lower p a) as Hlo.
  destruct (p x) eqn:Hp.
  - split; [lia|]. intros Hf. apply Forall_cons in Hf as [Hx _]. congruence.
  - destruct (JS.findIndex p a <? 0)%Z eqn:E.
    + apply Z.ltb_lt in E. split; [|done]. intros _. constructor; [done|].
      apply IH. lia.
    + apply Z.ltb_ge in E. split; [lia|].
      intros Hf. apply Forall_cons in Hf as [_ Hf]. apply IH in Hf. lia.
Qed.

Lemma findIndex_found {A} (p : A -> bool) (a : list A) :
  JS.findIndex p a <> (-1)%Z ->
  exists x, a !! Z.to_nat (JS.findIndex p a) = Some x /\ p x = true /\
            (0 <= JS.findIndex p a < Z.of_nat (length a))%Z.
Proof.
  induction a as [|x a IH]; simpl; [done|].
  pose proof (findIndex_lower p a) as Hlo.
  destruct (p x) eqn:Hp.
  - intros _. exists x. repeat split; try done; lia.
  - destruct (JS.findIndex p a <? 0)%Z eqn:E; [done|].
    apply Z.ltb_ge in E. intros _.
    destruct IH as (y & Hy & Hpy & Hr); [lia|].
    exists y.
    replace (Z.to_nat (JS.findIndex p a + 1))
      with (S (Z.to_nat (JS.findIndex p a))) by lia.
    repeat split; try done; lia.
Qed.

Lemma String_eqb_elem (name : string) (l : list string) :
  Forall (fun x => String.eqb name x = false) l <-> name ∉ l.
Proof.
  rewrite Forall_forall. split.
  - intros Hf Hin. specialize (Hf _ Hin). by rewrite String.eqb_refl in Hf.
  - intros Hn x Hx. apply String.eqb_neq. intros ->. done.
Qed.

(** A trimmed string does not begin with white space. *)
Lemma trimStart_head (s : string) :
  match JS.trimStart s with
  | EmptyString => True
  | String c _ => JS.is_whitespace c = false
  end.
Proof.
  induction s as [|c s IH]; simpl; [done|].
  destruct (JS.is_whitespace c) eqn:E; [done|]. done.
Qed.

Lemma trim_head (s : string) (c : ascii) (t : string) :
  JS.trim s = String c t -> JS.is_whitespace c = false.
Proof.
  unfold JS.trim. pose proof (trimStart_head s) as Hh.
  destruct (JS.trimStart s) as [|c' s']; simpl; [done|].
  rewrite Hh. simpl. by intros [= <- _].
Qed.

Lemma split_nonempty (sep : ascii) (s : string) : JS.split sep s <> [].
Proof.
  destruct s as [|c s]; simpl; [done|].
  destruct (Ascii.eqb c sep); [done|]. by destruct (JS.split sep s).
Qed.

(** The own properties of an object. *)

Lemma own_get_set_eq {V} (k : string) (v : V) (o : JS.object V) :
  JS.own_get k (JS.own_set k v o) = Some v.
Proof.
  induction o as [|[k' v'] o IH]; simpl.
  - by rewrite String.eqb_refl.
  - destruct (String.eqb k k') eqn:E; simpl; rewrite ?String.eqb_refl, ?E; done.
Qed.

Lemma own_get_set_ne {V} (k k' : string) (v : V) (o : JS.object V) :
  k <> k' -> JS.own_get k' (JS.own_set k v o) = JS.own_get k' o.
Proof.
  intros Hne. induction o as [|[k0 v0] o IH]; simpl.
  - apply String.eqb_neq in Hne. rewrite String.eqb_sym in Hne. by rewrite Hne.
  - destruct (String.eqb k k0) eqn:E; simpl.
    + apply String.eqb_eq in E as <-.
      assert (String.eqb k' k = false) as -> by (apply String.eqb_neq; congruence).
      done.
    + destruct (String.eqb k' k0); done.
Qed.

Lemma own_get_None {V} (k : string) (o : JS.object V) :
  JS.own_get k o = None <-> k ∉ o.*1.
Proof.
  induction o as [|[k' v'] o IH]; simpl.
  - split; [intros _; apply not_elem_of_nil|done].
  - destruct (String.eqb k k') eqn:E.
    + apply String.eqb_eq in E as <-. split; [done|]. intros Hn. exfalso. apply Hn. constructor.
    + apply String.eqb_neq in E. rewrite IH, not_elem_of_cons. tauto.
Qed.

Lemma own_set_keys_old {V} (k : string) (v : V) (o : JS.object V) :
  k ∈ o.*1 -> (JS.own_set k v o).*1 = o.*1.
Proof.
  induction o as [|[k' v'] o IH]; simpl; [by intros ?%elem_of_nil|].
  destruct (String.eqb k k') eqn:E; simpl.
  - apply String.eqb_eq in E as <-. done.
  - apply String.eqb_neq in E. intros [?|Hin]%elem_of_cons; [done|]. f_equal. by apply IH.
Qed.

Lemma own_set_keys_new {V} (k : string) (v : V) (o : JS.object V) :
  k ∉ o.*1 -> (JS.own_set k v o).*1 = o.*1 ++ [k].
Proof.
  induction o as [|[k' v'] o IH]; simpl; [done|].
  intros [Hne Hn]%not_elem_of_cons.
  apply String.eqb_neq in Hne. rewrite Hne. simpl. f_equal. by apply IH.
Qed.

Lemma Object_keys_perm {V} (o : JS.object V) : JS.Object_keys o ≡ₚ o.*1.
Proof.
  unfold JS.Object_keys. rewrite insertion_sort_perm.
  induction (o.*1) as [|k l IH]; [done|].
  rewrite !filter_cons. destruct (decide (JS.is_array_index k = true)) as [E|E].
  - rewrite decide_False by (by intros ?). simpl. by rewrite IH.
  - rewrite decide_True by done. rewrite <- Permutation_middle. by rewrite IH.
Qed.

End Primitives.

Section Grouping.

Lemma sum_amount_from (z : Z) (l : list Event.t) :
  foldl (fun s f => (s + Event.amount f)%Z) z l = (z + sum_amount l)%Z.
Proof.
  unfold sum_amount. revert z.
  induction l as [|e l IH]; intros z; simpl; [lia|].
  rewrite IH, (IH (0 + Event.amount e)%Z). lia.
Qed.

Lemma sum_amount_cons (e : Event.t) (l : list Event.t) :
  sum_amount (e :: l) = (Event.amount e + sum_amount l)%Z.
Proof. unfold sum_amount at 1. simpl. rewrite sum_amount_from. lia. Qed.

Lemma sum_amount_app (l1 l2 : list Event.t) :
  sum_amount (l1 ++ l2) = (sum_amount l1 + sum_amount l2)%Z.
Proof.
  induction l1 as [|e l1 IH]; simpl; [done|].
  rewrite !sum_amount_cons, IH. lia.
Qed.

Lemma sum_amount_perm (l1 l2 : list Event.t) :
  l1 ≡ₚ l2 -> sum_amount l1 = sum_amount l2.
Proof.
  induction 1 as [|x l l' _ IH|x y l|l l' l'' _ IH1 _ IH2];
    rewrite ?sum_amount_cons; [done|lia|lia|congruence].
Qed.

Lemma on_date_snoc (k : string) (seen : list Event.t) (feed : Event.t) :
  on_date k (seen ++ [feed]) =
  on_date k seen ++ (if decide (Event.date feed = k) then [feed] else []).
Proof.
  unfold on_date. by rewrite filter_app.
Qed.

Lemma acc_of_snoc (fs : list Event.t) (feed : Event.t) :
  acc_of (fs ++ [feed]) =
  Some {| DayAcc.feeds := fs ++ [feed];
          DayAcc.totalAmount := (sum_amount fs + Event.amount feed)%Z;
          DayAcc.count := (Z.of_nat (length fs) + 1)%Z |}.
Proof.
  unfold acc_of. destruct (fs ++ [feed]) eqn:E; [by destruct fs|].
  rewrite <- E. f_equal. f_equal.
  - rewrite sum_amount_app, sum_amount_cons. change (sum_amount []) with 0%Z. lia.
  - rewrite length_app. simpl. lia.
Qed.

Lemma group_feed_grouped (seen : list Event.t) (o o' : JS.object DayAcc.t) (feed : Event.t) :
  grouped seen o -> group_feed o feed = inr o' -> grouped (seen ++ [feed]) o'.
Proof.
  intros [Hnd Hget] Hstep. unfold group_feed in Hstep.
  assert (forall acc,
    JS.own_get (Event.date feed) o = acc_of (on_date (Event.date feed) seen) ->
    (JS.own_get (Event.date feed) o = Some acc \/
     (JS.own_get (Event.date feed) o = None /\
      acc = {| DayAcc.feeds := []; DayAcc.totalAmount := 0; DayAcc.count := 0 |})) ->
    {| DayAcc.feeds := DayAcc.feeds acc ++ [feed];
       DayAcc.totalAmount := (DayAcc.totalAmount acc + Event.amount feed)%Z;
       DayAcc.count := (DayAcc.count acc + 1)%Z |} =
    {| DayAcc.feeds := on_date (Event.date feed) seen ++ [feed];
       DayAcc.totalAmount := (sum_amount (on_date (Event.date feed) seen) + Event.amount feed)%Z;
       DayAcc.count := (Z.of_nat (length (on_date (Event.date feed) seen)) + 1)%Z |}) as Hadd.
  { intros acc Hk [Hs|[Hn ->]]; rewrite Hk in *.
    - destruct (on_date (Event.date feed) seen) eqn:E; simpl in Hs; [done|].
      injection Hs as <-. done.
    - destruct (on_date (Event.date feed) seen) eqn:E; simpl in Hn; [done|done]. }
  assert (forall acc, o' = JS.own_set (Event.date feed)
            {| DayAcc.feeds := DayAcc.feeds acc ++ [feed];
               DayAcc.totalAmount := (DayAcc.totalAmount acc + Event.amount feed)%Z;
               DayAcc.count := (DayAcc.count acc + 1)%Z |} o ->
          (JS.own_get (Event.date feed) o = Some acc \/
           (JS.own_get (Event.date feed) o = None /\
            acc = {| DayAcc.feeds := []; DayAcc.totalAmount := 0; DayAcc.count := 0 |})) ->
          grouped (seen ++ [feed]) o') as Hgo.
  { intros acc -> Hcase. rewrite (Hadd acc (Hget _) Hcase). split.
    - destruct Hcase as [Hs|[Hn _]].
      + rewrite own_set_keys_old; [done|].
        destruct (decide (Event.date feed ∈ o.*1)) as [|Hn]; [done|].
        apply own_get_None in Hn. congruence.
      + apply own_get_None in Hn. rewrite own_set_keys_new by done.
        apply NoDup_app. split_and!; [done| |apply NoDup_singleton].
        intros k Hk ->%list_elem_of_singleton. done.
    - intros k. rewrite on_date_snoc. destruct (decide (Event.date feed = k)) as [<-|Hne].
      + rewrite own_get_set_eq, acc_of_snoc. done.
      + rewrite own_get_set_ne by done. rewrite app_nil_r. apply Hget. }
  destruct (JS.own_get (Event.date feed) o) as [acc|] eqn:E.
  - injection Hstep as <-. apply (Hgo acc); auto.
  - destruct (bool_decide _); [done|]. injection Hstep as <-.
    apply (Hgo {| DayAcc.feeds := []; DayAcc.totalAmount := 0; DayAcc.count := 0 |}); auto.
Qed.

Lemma group_feeds_grouped (feeds seen : list Event.t) (o o' : JS.object DayAcc.t) :
  grouped seen o -> group_feeds o feeds = inr o' -> grouped (seen ++ feeds) o'.
Proof.
  revert seen o. induction feeds as [|feed feeds IH]; intros seen o Hg; simpl.
  - intros [= <-]. by rewrite app_nil_r.
  - destruct (group_feed o feed) as [e|o1] eqn:E; [done|].
    intros Hrest. replace (seen ++ feed :: feeds) with ((seen ++ [feed]) ++ feeds)
      by (by rewrite <- app_assoc).
    eapply IH; [|done]. by eapply group_feed_grouped.
Qed.

Lemma grouped_nil : grouped [] [].
Proof. split; [constructor|done]. Qed.

End Grouping.

Section Amounts.

Lemma digit_value_nonneg (c : ascii) : JS.is_digit c = true -> (0 <= JS.digit_value c)%Z.
Proof.
  unfold JS.is_digit, JS.digit_value. intros [H1 _]%andb_prop.
  apply Nat.leb_le in H1. lia.
Qed.

Lemma digits_value_nonneg (s : string) (acc : Z) :
  (0 <= acc)%Z -> (0 <= JS.digits_value acc s)%Z.
Proof.
  revert acc. induction s as [|c s IH]; intros acc Hacc; simpl; [done|].
  destruct (JS.is_digit c) eqn:E; [|done].
  apply IH. pose proof (digit_value_nonneg c E). lia.
Qed.

Lemma digit_not_whitespace (c : ascii) : JS.is_digit c = true -> JS.is_whitespace c = false.
Proof.
  unfold JS.is_digit, JS.is_whitespace. intros [H1 H2]%andb_prop.
  apply Nat.leb_le in H1. apply Nat.leb_le in H2.
  repeat (apply orb_false_intro); [apply andb_false_intro2| |].
  - apply Nat.leb_gt. lia.
  - apply Nat.eqb_neq. lia.
  - apply Nat.eqb_neq. lia.
Qed.

Lemma digit_not_sign (c : ascii) :
  JS.is_digit c = true -> Ascii.eqb c "-" = false /\ Ascii.eqb c "+" = false.
Proof.
  intros Hd. split; apply Ascii.eqb_neq; intros ->; by vm_compute in Hd.
Qed.

(** The text [parseInt] is given is a run of digits, so the sign and the
    white space of [parseInt] play no part. *)
Lemma parseInt_digits (c : ascii) (s : string) :
  JS.is_digit c = true ->
  JS.parseInt (String c s) = Some (JS.digits_value 0 (String c s)).
Proof.
  intros Hd. unfold JS.parseInt. simpl JS.trimStart.
  rewrite (digit_not_whitespace c Hd).
  destruct (digit_not_sign c Hd) as [-> ->]. simpl. by rewrite Hd.
Qed.

Lemma match_digits_head (s m : string) :
  JS.match_digits s = Some m ->
  exists c m', m = String c m' /\ JS.is_digit c = true.
Proof.
  induction s as [|c s IH]; simpl; [done|].
  destruct (JS.is_digit c) eqn:E.
  - intros [= <-]. eauto.
  - apply IH.
Qed.

Lemma extract_amount_nonneg (f : option string) (a : Z) :
  extract_amount f = Some a -> (0 <= a)%Z.
Proof.
  unfold extract_amount. destruct f as [s|]; [|intros [= <-]; lia].
  destruct (JS.truthy s); [|intros [= <-]; lia].
  destruct (JS.match_digits s) as [m|] eqn:E; [|intros [= <-]; lia].
  apply match_digits_head in E as (c & m' & -> & Hd).
  rewrite parseInt_digits by done. intros Heq. injection Heq as <-.
  apply (digits_value_nonneg (String c m')). lia.
Qed.

Lemma row_feed_amount (c : columns) (line : string) (e : Event.t) :
  row_feed c line = Some e -> (0 < Event.amount e)%Z.
Proof.
  unfold row_feed. repeat case_match; try done.
  intros [= <-]. simpl.
  match goal with H : extract_amount _ = Some _ |- _ => apply extract_amount_nonneg in H end.
  match goal with H : _ && _ = true |- _ => apply andb_prop in H as [_ Hz] end.
  apply negb_true_iff, Z.eqb_neq in Hz. lia.
Qed.

Lemma collect_feeds_amount (c : columns) (rows : list string) :
  Forall (fun e => (0 < Event.amount e)%Z) (collect_feeds c rows).
Proof.
  unfold collect_feeds. apply Forall_forall. intros e He.
  apply list_elem_of_omap in He as (line & _ & Hrow).
  by eapply row_feed_amount.
Qed.

End Amounts.

Section Sums.

Lemma Zsum_cons (x : Z) (l : list Z) : Zsum (x :: l) = (x + Zsum l)%Z.
Proof. done. Qed.

Lemma Zsum_perm (l1 l2 : list Z) : l1 ≡ₚ l2 -> Zsum l1 = Zsum l2.
Proof.
  induction 1 as [|x l l' _ IH|x y l|l l' l'' _ IH1 _ IH2]; simpl;
    [done|lia|lia|congruence].
Qed.



Lemma on_date_cons (k : string) (e : Event.t) (l : list Event.t) :
  on_date k (e :: l) =
  if decide (Event.date e = k) then e :: on_date k l else on_date k l.
Proof. unfold on_date. by rewrite filter_cons. Qed.


End Sums.

Section Rounding.

#[local] Open Scope Q_scope.







End Rounding.

Section Analysis.

Context `{Host}.

Lemma analyzeBottleFeeds_inr (csvText : string) (r : AnalysisResult.t) :
  analyzeBottleFeeds csvText = inr r ->
  2 <= length (input_lines csvText) /\
  column_missing (input_columns csvText) = false /\
  input_feeds csvText <> [] /\
  exists feedsByDate,
    group_feeds [] (Array_sort feed_compare (input_feeds csvText)) = inr feedsByDate /\
    r = summarize (Array_sort feed_compare (input_feeds csvText)) feedsByDate.
Proof.
  unfold analyzeBottleFeeds, analyze.
  fold (input_lines csvText). fold (input_headers csvText).
  fold (input_columns csvText). fold (input_feeds csvText).
  destruct (length (input_lines csvText) <? 2)%nat eqn:E1; [done|].
  destruct (column_missing (input_columns csvText)) eqn:E2; [done|].
  destruct (length (input_feeds csvText) =? 0)%nat eqn:E3; [done|].
  destruct (group_feeds [] _) as [e|fbd] eqn:E4; [done|].
  intros [= <-]. apply Nat.ltb_ge in E1. apply Nat.eqb_neq in E3.
  split_and!; [done|done| |by exists fbd].
  intros Hnil. by rewrite Hnil in E3.
Qed.

Lemma sorted_feeds_amount (csvText : string) :
  Forall (fun e => (0 < Event.amount e)%Z)
         (Array_sort feed_compare (input_feeds csvText)).
Proof.
  rewrite Array_sort_perm. apply collect_feeds_amount.
Qed.

Lemma grouped_keys (feeds : list Event.t) (o : JS.object DayAcc.t) (k : string) :
  grouped feeds o -> k ∈ o.*1 <-> on_date k feeds <> [].
Proof.
  intros [_ Hget]. specialize (Hget k).
  destruct (decide (k ∈ o.*1)) as [Hin|Hout].
  - split; [|done]. intros _ Hnil. rewrite Hnil in Hget.
    apply own_get_None in Hget. done.
  - split; [done|]. intros Hne. apply own_get_None in Hout.
    rewrite Hout in Hget. by destruct (on_date k feeds).
Qed.

Lemma grouped_dates (feeds : list Event.t) (o : JS.object DayAcc.t) :
  grouped feeds o -> Forall (fun e => Event.date e ∈ o.*1) feeds.
Proof.
  intros Hg. apply Forall_forall. intros e He.
  apply (grouped_keys feeds o _ Hg). intros Hnil.
  assert (e ∈ on_date (Event.date e) feeds) as Hin
    by (unfold on_date; by apply list_elem_of_filter).
  rewrite Hnil in Hin. by apply elem_of_nil in Hin.
Qed.

Lemma daily_stat_grouped (feeds : list Event.t) (o : JS.object DayAcc.t) (k : string) :
  grouped feeds o -> k ∈ o.*1 ->
  daily_stat o k =
  {| DailyStat.date := k;
     DailyStat.feedCount := Z.of_nat (length (on_date k feeds));
     DailyStat.totalAmount := sum_amount (on_date k feeds);
     DailyStat.averageAmount :=
       round1 (JS.QZ (sum_amount (on_date k feeds))
               / JS.QZ (Z.of_nat (length (on_date k feeds)))) |}.
Proof.
  intros Hg Hk. pose proof (proj1 (grouped_keys feeds o k Hg) Hk) as Hne.
  destruct Hg as [_ Hget]. unfold daily_stat. rewrite Hget.
  by destruct (on_date k feeds).
Qed.

Lemma allStats_perm (feeds : list Event.t) (o : JS.object DayAcc.t) :
  AnalysisResult.allStats (summarize feeds o) ≡ₚ daily_stat o <$> o.*1.
Proof.
  unfold summarize. simpl. rewrite Array_sort_perm.
  apply fmap_Permutation, Object_keys_perm.
Qed.

End Analysis.

Section Daily.

Context `{Host}.



Lemma slice_range {A} (start end_ : Z) (l : list A) :
  (0 <= start <= end_)%Z -> (end_ <= Z.of_nat (length l))%Z ->
  JS.slice start end_ l = take (Z.to_nat (end_ - start)) (drop (Z.to_nat start) l).
Proof.
  intros H1 H2. unfold JS.slice, JS.rel_index.
  destruct (start <? 0)%Z eqn:E1; [lia|]. destruct (end_ <? 0)%Z eqn:E2; [lia|].
  f_equal; [lia|]. f_equal. lia.
Qed.

(** Every daily statistic of an accepted input is the statistic of the
    events of its date, and averages at least 1. *)
Lemma allStats_grouped (feeds : list Event.t) (o : JS.object DayAcc.t) :
  grouped feeds o ->
  Forall (fun d =>
            DailyStat.date d ∈ o.*1 /\
            d = daily_stat o (DailyStat.date d))
         (AnalysisResult.allStats (summarize feeds o)).
Proof.
  intros Hg. rewrite allStats_perm. apply Forall_fmap, Forall_forall.
  intros k Hk. simpl. split; [done|].
  rewrite (daily_stat_grouped feeds o k Hg Hk). done.
Qed.


End Daily.

Section Totals.

Context `{Host}.

Lemma analyzeBottleFeeds_grouped (csvText : string) (r : AnalysisResult.t) :
  analyzeBottleFeeds csvText = inr r ->
  exists feedsByDate,
    grouped (AnalysisResult.rawFeeds r) feedsByDate /\
    r = summarize (AnalysisResult.rawFeeds r) feedsByDate /\
    AnalysisResult.rawFeeds r ≡ₚ input_feeds csvText /\
    AnalysisResult.rawFeeds r <> [].
Proof.
  intros (_ & _ & Hne & fbd & Hgroup & ->)%analyzeBottleFeeds_inr.
  exists fbd. simpl. split_and!; [|done|apply Array_sort_perm|].
  - apply (group_feeds_grouped _ [] [] fbd grouped_nil Hgroup).
  - intros Hnil. apply Hne. apply Permutation_nil_r. rewrite <- Hnil.
    symmetry. apply Array_sort_perm.
Qed.

(** Every event of an accepted input has a positive amount. *)
Lemma rawFeeds_amount_positive (csvText : string) (r : AnalysisResult.t) :
  analyzeBottleFeeds csvText = inr r ->
  Forall (fun e => (0 < Event.amount e)%Z) (AnalysisResult.rawFeeds r).
Proof.
  intros (fbd & _ & _ & Hperm & _)%analyzeBottleFeeds_grouped.
  rewrite Hperm. apply collect_feeds_amount.
Qed.



End Totals.

Section Slots.









End Slots.

Section SlotTotals.

Context `{Host}.


End SlotTotals.

Section Trends.

Context `{Host}.

Lemma trend_at_entry (sortedStats : list DailyStat.t) (i : nat) :
  13 <= i < length sortedStats ->
  trend_at sortedStats i = [trend_entry sortedStats i].
Proof.
  intros Hi. unfold trend_at, trend_entry.
  rewrite (slice_range (Z.of_nat i - 6) (Z.of_nat i + 1)) by lia.
  rewrite (slice_range (Z.max 0 (Z.of_nat i - 13)) (Z.of_nat i - 6)) by lia.
  replace (Z.to_nat (Z.of_nat i + 1 - (Z.of_nat i - 6))) with 7 by lia.
  replace (Z.to_nat (Z.of_nat i - 6)) with (i - 6) by lia.
  replace (Z.to_nat (Z.of_nat i - 6 - Z.max 0 (Z.of_nat i - 13))) with 7 by lia.
  replace (Z.to_nat (Z.max 0 (Z.of_nat i - 13))) with (i - 13) by lia.
  rewrite !length_take, !length_drop.
  replace (0 <? 7 `min` (length sortedStats - (i - 6)))%nat with true
    by (symmetry; apply Nat.ltb_lt; lia).
  replace (0 <? 7 `min` (length sortedStats - (i - 13)))%nat with true
    by (symmetry; apply Nat.ltb_lt; lia).
  done.
Qed.

Lemma trends_of_sorted_entries (sortedStats : list DailyStat.t) :
  trends_of_sorted sortedStats =
  trend_entry sortedStats <$> seq 13 (length sortedStats - 13).
Proof.
  unfold trends_of_sorted.
  assert (Forall (fun i => 13 <= i < length sortedStats)
                 (seq 13 (length sortedStats - 13))) as Hall.
  { apply Forall_forall. intros i Hi%elem_of_seq. lia. }
  induction Hall as [|i l Hi _ IH]; [done|].
  simpl. rewrite (trend_at_entry _ _ Hi), IH. done.
Qed.

Lemma ascending_dates_sorted (stats : list DailyStat.t) :
  ascending_dates stats -> Array_sort stat_compare_time stats = stats.
Proof.
  intros (times & Hparse & Hsorted).
  assert (forall d, d ∈ stats -> exists t, Date_parse (DailyStat.date d) = Some t) as Hvalid.
  { intros d (i & Hi)%list_elem_of_lookup_1.
    assert (((fun d => Date_parse (DailyStat.date d)) <$> stats) !! i =
            Some (Date_parse (DailyStat.date d))) as Hl by (by rewrite list_lookup_fmap, Hi).
    rewrite Hparse, list_lookup_fmap in Hl.
    destruct (times !! i) as [t|]; [|done]. exists t. simpl in Hl. congruence. }
  apply (Array_sort_ascending _ (fun d => default 0%Z (Date_parse (DailyStat.date d)))).
  - intros a b Ha Hb. unfold stat_compare_time, Date_diff.
    destruct (Hvalid a Ha) as [ta ->]. destruct (Hvalid b Hb) as [tb ->]. done.
  - assert ((fun d => default 0%Z (Date_parse (DailyStat.date d))) <$> stats = times) as ->;
      [|done].
    assert (default 0%Z <$> ((fun d => Date_parse (DailyStat.date d)) <$> stats) = times) as Hd.
    { rewrite Hparse, <- list_fmap_compose. by apply list_fmap_id. }
    by rewrite <- list_fmap_compose in Hd.
Qed.


End Trends.

Section Rows.

Lemma append_cons (a : ascii) (s t : string) :
  (String a s ++ t)%string = String a (s ++ t)%string.
Proof. done. Qed.

Lemma get_append (pre suf : string) (j : nat) :
  String.get (String.length pre + j) (pre ++ suf)%string = String.get j suf.
Proof. induction pre as [|c pre IH]; [done|]. by rewrite append_cons. Qed.

Lemma length_append (s1 s2 : string) :
  String.length (s1 ++ s2)%string = String.length s1 + String.length s2.
Proof. induction s1 as [|c s1 IH]; [done|]. rewrite append_cons. simpl. by f_equal. Qed.

Lemma append_snoc (pre rest : string) (c : ascii) :
  ((pre ++ String c EmptyString) ++ rest)%string = (pre ++ String c rest)%string.
Proof. induction pre as [|a pre IH]; [done|]. rewrite !append_cons. by f_equal. Qed.

Lemma foldl_scan (line : string) (rest pre : string) (st : list string * nat * bool) :
  line = (pre ++ rest)%string ->
  foldl (parseCSVLine_step line) st (seq (String.length pre) (String.length rest)) =
  scan line (String.length pre) rest st.
Proof.
  revert pre st. induction rest as [|c rest IH]; intros pre st Hline; simpl; [done|].
  specialize (IH (pre ++ String c EmptyString)%string
                 (parseCSVLine_step line st (String.length pre))).
  rewrite length_append in IH. simpl in IH. rewrite Nat.add_1_r in IH.
  apply IH. by rewrite append_snoc.
Qed.

Lemma scan_count (line rest pre : string) (result : list string) (startPos : nat)
    (inQuotes : bool) :
  line = (pre ++ rest)%string ->
  let '(result', _, inQuotes') :=
    scan line (String.length pre) rest (result, startPos, inQuotes) in
  length result' = length result + unquoted_commas inQuotes rest /\
  inQuotes' = quote_open inQuotes rest.
Proof.
  revert pre result startPos inQuotes.
  induction rest as [|c rest IH]; intros pre result startPos inQuotes Hline; simpl.
  - split; [lia|done].
  - assert (String.get (String.length pre) line = Some c) as Hget.
    { rewrite Hline, <- (Nat.add_0_r (String.length pre)), get_append. done. }
    assert (line = ((pre ++ String c EmptyString) ++ rest)%string) as Hline'.
    { by rewrite append_snoc. }
    assert (S (String.length pre) = String.length (pre ++ String c EmptyString)%string) as Hlen.
    { rewrite length_append. simpl. lia. }
    unfold parseCSVLine_step. rewrite Hget, Hlen.
    destruct (Ascii.eqb c JS.quote) eqn:Eq.
    + apply (IH _ result startPos (negb inQuotes) Hline').
    + destruct (Ascii.eqb c JS.comma && negb inQuotes) eqn:Ec.
      * specialize (IH _ (result ++ [field_of (JS.substring startPos (String.length pre) line)])
                       (String.length (pre ++ String c EmptyString)%string) inQuotes Hline').
        destruct (scan _ _ _ _) as [[r' s'] q']. rewrite length_app in IH. simpl in IH.
        destruct IH as [-> ->]. split; [lia|done].
      * apply (IH _ result startPos inQuotes Hline').
Qed.

Lemma parseCSVLine_blank (line : string) :
  JS.is_empty (JS.trim line) = true -> parseCSVLine line = [].
Proof. intros Hb. unfold parseCSVLine. rewrite Hb. by rewrite orb_true_r. Qed.

Lemma trim_empty (line : string) : JS.is_empty line = true -> JS.is_empty (JS.trim line) = true.
Proof. by destruct line. Qed.

(** A row that is not blank gives one field more than it has commas
    outside quotes. *)
Lemma parseCSVLine_length (line : string) :
  JS.is_empty (JS.trim line) = false ->
  length (parseCSVLine line) = S (unquoted_commas false line).
Proof.
  intros Hb. unfold parseCSVLine. rewrite Hb.
  destruct (JS.is_empty line) eqn:E; [by rewrite (trim_empty _ E) in Hb|]. simpl.
  pose proof (foldl_scan line line EmptyString ([], 0, false) eq_refl) as Hf.
  pose proof (scan_count line line EmptyString [] 0 false eq_refl) as Hc.
  simpl in Hf, Hc. rewrite Hf.
  destruct (scan line 0 line ([], 0, false)) as [[r s] q].
  destruct Hc as [Hc _]. rewrite length_app, Hc. simpl. lia.
Qed.

(** Every field is white-space trimmed after the quotes are stripped. *)
Lemma parseCSVLine_fields (line : string) :
  Forall (fun f => exists raw, f = field_of raw) (parseCSVLine line).
Proof.
  unfold parseCSVLine. destruct (_ || _); [constructor|].
  assert (forall indices st,
            Forall (fun f => exists raw, f = field_of raw) st.1.1 ->
            Forall (fun f => exists raw, f = field_of raw)
                   (foldl (parseCSVLine_step line) st indices).1.1) as Hloop.
  { induction indices as [|i indices IH]; intros st Hst; simpl; [done|].
    apply IH. destruct st as [[result startPos] inQuotes]. unfold parseCSVLine_step.
    destruct (String.get i line) as [ch|]; [|done].
    destruct (Ascii.eqb ch JS.quote); [done|].
    destruct (_ && _); [|done]. simpl in *.
    apply Forall_app. split; [done|]. repeat constructor. eauto. }
  specialize (Hloop (seq 0 (String.length line)) ([], 0, false) (Forall_nil_2 _)).
  destruct (foldl _ _ _) as [[result startPos] inQuotes]. simpl in Hloop.
  apply Forall_app. split; [done|]. repeat constructor. eauto.
Qed.

Lemma collect_feeds_app (c : columns) (rows1 rows2 : list string) :
  collect_feeds c (rows1 ++ rows2) = collect_feeds c rows1 ++ collect_feeds c rows2.
Proof. unfold collect_feeds. apply omap_app. Qed.

(** C9.  For every row, with balanced quotes or not, [parseCSVLine]
    returns its fields: none for a blank row, otherwise one more than the
    row has commas outside quotes.  What a row contributes does not
    depend on the rows around it, so the rows after a row with an
    unbalanced quote are read as if it were not there. *)
Theorem unbalanced_quote_is_local (c : columns) (before after : list string) (row : string) :
  (if JS.is_empty (JS.trim row) then parseCSVLine row = []
   else length (parseCSVLine row) = S (unquoted_commas false row)) /\
  collect_feeds c (before ++ row :: after) =
    collect_feeds c before ++ collect_feeds c [row] ++ collect_feeds c after.
Proof.
  split.
  - destruct (JS.is_empty (JS.trim row)) eqn:E.
    + by apply parseCSVLine_blank.
    + by apply parseCSVLine_length.
  - change (row :: after) with ([row] ++ after).
    by rewrite !collect_feeds_app.
Qed.

End Rows.

Section Fields.

Lemma starts_with_spec (p s : string) :
  JS.starts_with p s = true <-> exists post, s = (p ++ post)%string.
Proof.
  revert s. induction p as [|a p IH]; intros s; simpl.
  - split; [|done]. intros _. by exists s.
  - destruct s as [|b s].
    + split; [done|]. intros [post Hp]. by rewrite append_cons in Hp.
    + rewrite andb_true_iff, IH. split.
      * intros [->%Ascii.eqb_eq [post ->]]. by exists post.
      * intros [post Hp]. rewrite append_cons in Hp. injection Hp as -> ->.
        split; [apply Ascii.eqb_refl|by exists post].
Qed.

Lemma includes_spec (p s : string) : JS.includes p s = true <-> contains p s.
Proof.
  unfold contains. split.
  - induction s as [|c s IH]; simpl; rewrite orb_true_iff.
    + intros [Hs|?]; [|done]. apply starts_with_spec in Hs as [post ->].
      by exists EmptyString, post.
    + intros [Hs|Hi].
      * apply starts_with_spec in Hs as [post ->]. by exists EmptyString, post.
      * destruct (IH Hi) as (pre & post & ->). by exists (String c pre), post.
  - intros (pre & post & ->). induction pre as [|c pre IH].
    + assert (JS.starts_with p (p ++ post)%string = true) as Hs
        by (apply starts_with_spec; by exists post).
      change (EmptyString ++ p ++ post)%string with (p ++ post)%string.
      destruct (p ++ post)%string; simpl; by rewrite Hs.
    + rewrite append_cons. simpl. rewrite IH. apply orb_true_r.
Qed.

Lemma take_digits_run (run rest : string) :
  JS.all_digits run = true ->
  match rest with String c _ => JS.is_digit c = false | EmptyString => True end ->
  JS.take_digits (run ++ rest)%string = run.
Proof.
  intros Hall Hrest. induction run as [|c run IH].
  - change (EmptyString ++ rest)%string with rest. destruct rest as [|c rest]; simpl; [done|].
    by rewrite Hrest.
  - simpl in Hall. apply andb_prop in Hall as [Hc Hall].
    rewrite append_cons. simpl. rewrite Hc. f_equal. by apply IH.
Qed.

Lemma take_digits_split (s : string) :
  exists rest, s = (JS.take_digits s ++ rest)%string /\
               JS.all_digits (JS.take_digits s) = true /\
               match rest with String c _ => JS.is_digit c = false | EmptyString => True end.
Proof.
  induction s as [|c s (rest & Hs & Hall & Hrest)]; simpl.
  - by exists EmptyString.
  - destruct (JS.is_digit c) eqn:E.
    + exists rest. rewrite append_cons, <- Hs. simpl. by rewrite E, Hall.
    + exists (String c s). by rewrite E.
Qed.

Lemma match_digits_spec (s run : string) :
  JS.match_digits s = Some run <-> first_digit_run s run.
Proof.
  unfold first_digit_run. split.
  - induction s as [|c s IH]; simpl; [done|].
    destruct (JS.is_digit c) eqn:E.
    + intros [= <-]. destruct (take_digits_split (String c s)) as (rest & Hs & Hall & Hrest).
      simpl in Hs, Hall. rewrite E in Hs, Hall.
      exists EmptyString, rest. split_and!; [exact Hs|done|done|exact Hall|exact Hrest].
    + intros (pre & rest & -> & Hpre & Hrun)%IH.
      exists (String c pre), rest. split_and!; try apply Hrun; [done|].
      simpl. by rewrite E.
  - intros (pre & rest & -> & Hpre & Hne & Hall & Hrest).
    induction pre as [|c pre IH].
    + change (EmptyString ++ run ++ rest)%string with (run ++ rest)%string.
      destruct run as [|d run]; [done|].
      pose proof (take_digits_run _ _ Hall Hrest) as Ht.
      pose proof Hall as Hd. simpl in Hd. apply andb_prop in Hd as [Hd _].
      rewrite append_cons in *. simpl in Ht |- *. rewrite Hd in Ht |- *. congruence.
    + simpl in Hpre. apply andb_prop in Hpre as [Hc Hpre].
      rewrite append_cons. simpl. apply negb_true_iff in Hc. rewrite Hc. by apply IH.
Qed.

Lemma split_head (sep : ascii) (s : string) :
  JS.split sep s !! 0 = Some (before sep s).
Proof.
  induction s as [|c s IH]; simpl; [done|].
  destruct (Ascii.eqb c sep); [done|].
  destruct (JS.split sep s) as [|f fs]; [done|]. simpl in *. congruence.
Qed.

Lemma split_without (sep : ascii) (s : string) :
  has_char sep s = false -> JS.split sep s = [s].
Proof.
  induction s as [|c s IH]; simpl; [done|].
  intros [-> Hs]%orb_false_elim. by rewrite (IH Hs).
Qed.

Lemma index_in_range {A} (a : list A) (k : Z) :
  (0 <= k < Z.of_nat (length a))%Z -> exists x, JS.index a k = Some x /\ x ∈ a.
Proof.
  intros Hk. unfold JS.index.
  destruct (k <? 0)%Z eqn:E; [lia|].
  destruct (lookup_lt_is_Some_2 a (Z.to_nat k)) as [x Hx]; [lia|].
  exists x. split; [done|]. by eapply list_elem_of_lookup_2.
Qed.

(** A field that is not empty has a date part that is not empty: it
    cannot begin with the space. *)
Lemma field_before_space (raw : string) :
  JS.truthy (field_of raw) = true <-> before JS.space (field_of raw) <> EmptyString.
Proof.
  unfold field_of. destruct (JS.trim (JS.strip_quotes raw)) as [|ch t] eqn:E; [done|].
  apply trim_head in E. simpl.
  destruct (Ascii.eqb ch JS.space) eqn:Es; [|done].
  apply Ascii.eqb_eq in Es as ->. by vm_compute in E.
Qed.

End Fields.

Section RowEvents.

(** What the loop body does with a row that has enough fields, in terms
    of the three fields it reads. *)
Lemma row_feed_fields (c : columns) (line startLocation start endCondition : string) :
  (max_column c < Z.of_nat (length (parseCSVLine line)))%Z ->
  JS.index (parseCSVLine line) (startLocationIndex c) = Some startLocation ->
  JS.index (parseCSVLine line) (startIndex c) = Some start ->
  JS.index (parseCSVLine line) (endConditionIndex c) = Some endCondition ->
  row_feed c line =
  if JS.includes "Bottle" startLocation then
    match JS.match_digits endCondition with
    | Some run =>
        if JS.truthy start && negb (JS.digits_value 0 run =? 0)%Z
        then Some (make_feed start (JS.digits_value 0 run))
        else None
    | None => None
    end
  else None.
Proof.
  intros Hlen Hloc Hstart Hcond. unfold row_feed.
  destruct (JS.is_empty (JS.trim line)) eqn:Hblank.
  { rewrite (parseCSVLine_blank _ Hblank) in Hloc. by destruct (startLocationIndex c). }
  destruct (Z.of_nat (length (parseCSVLine line)) <=? max_column c)%Z eqn:E;
    [apply Z.leb_le in E; lia|].
  rewrite Hloc, Hstart, Hcond. simpl.
  assert (JS.truthy startLocation && JS.includes "Bottle" startLocation =
          JS.includes "Bottle" startLocation) as -> by (by destruct startLocation).
  destruct (JS.includes "Bottle" startLocation); [|done].
  destruct (JS.truthy endCondition) eqn:Et.
  - destruct (JS.match_digits endCondition) as [run|] eqn:Em.
    + apply match_digits_head in Em as (d & run' & -> & Hd).
      by rewrite parseInt_digits.
    + by rewrite andb_false_r.
  - destruct endCondition; [|done]. simpl. by rewrite andb_false_r.
Qed.

Lemma make_feed_date (start : string) (amount : Z) :
  Event.date (make_feed start amount) = before JS.space start.
Proof. unfold make_feed. simpl. by rewrite split_head. Qed.

Lemma make_feed_time (start : string) (amount : Z) :
  has_char JS.space start = false -> Event.time (make_feed start amount) = "00:00".
Proof. intros Hs. unfold make_feed. simpl. by rewrite (split_without _ _ Hs). Qed.

(** C6.  A data row with enough fields yields an event if and only if
    its Start Location field contains [Bottle], the first run of decimal
    digits of its End Condition field has a value other than 0, and the
    part of its Start field before the first space is not empty.  The
    event has that part as date and that value as amount, and the time
    00:00 when the Start field has no space. *)
Theorem row_yields_event (c : columns) (line : string) :
  columns_present c ->
  (max_column c < Z.of_nat (length (parseCSVLine line)))%Z ->
  exists startLocation start endCondition : string,
    JS.index (parseCSVLine line) (startLocationIndex c) = Some startLocation /\
    JS.index (parseCSVLine line) (startIndex c) = Some start /\
    JS.index (parseCSVLine line) (endConditionIndex c) = Some endCondition /\
    (is_Some (row_feed c line) <->
       contains "Bottle" startLocation /\
       (exists run, first_digit_run endCondition run /\ JS.digits_value 0 run <> 0%Z) /\
       before JS.space start <> EmptyString) /\
    (forall e, row_feed c line = Some e ->
       Event.date e = before JS.space start /\
       (exists run, first_digit_run endCondition run /\
                    Event.amount e = JS.digits_value 0 run) /\
       (has_char JS.space start = false -> Event.time e = "00:00")).
Proof.
  intros (Ht & Hs & Hl & He) Hlen. pose proof Hlen as Hmax. unfold max_column in Hmax.
  destruct (index_in_range (parseCSVLine line) (startLocationIndex c)) as (loc & Hloc & _);
    [lia|].
  destruct (index_in_range (parseCSVLine line) (startIndex c)) as (start & Hstart & Hin);
    [lia|].
  destruct (index_in_range (parseCSVLine line) (endConditionIndex c)) as (cond & Hcond & _);
    [lia|].
  exists loc, start, cond. split_and!; [done|done|done| |].
  - rewrite (row_feed_fields c line loc start cond Hlen Hloc Hstart Hcond).
    pose proof (parseCSVLine_fields line) as Hfields.
    rewrite Forall_forall in Hfields. destruct (Hfields _ Hin) as [raw ->].
    rewrite <- includes_spec, <- field_before_space.
    destruct (JS.includes "Bottle" loc); [|split; [by intros [? ?]|by intros [? _]]].
    destruct (JS.match_digits cond) as [run|] eqn:Em.
    + destruct (JS.truthy (field_of raw)); simpl.
      * destruct (JS.digits_value 0 run =? 0)%Z eqn:Ez; simpl.
        -- apply Z.eqb_eq in Ez. split; [by intros [? ?]|].
           intros (_ & (run' & Hrun & Hv) & _). apply match_digits_spec in Hrun.
           congruence.
        -- apply Z.eqb_neq in Ez. split; [|by eexists].
           intros _. split_and!; [done| |done]. exists run.
           by rewrite <- match_digits_spec.
      * split; [by intros [? ?]|by intros (_ & _ & ?)].
    + split; [by intros [? ?]|]. intros (_ & (run & Hrun & _) & _).
      apply match_digits_spec in Hrun. congruence.
  - intros e. rewrite (row_feed_fields c line loc start cond Hlen Hloc Hstart Hcond).
    destruct (JS.includes "Bottle" loc); [|done].
    destruct (JS.match_digits cond) as [run|] eqn:Em; [|done].
    destruct (_ && _); [|done]. intros [= <-].
    split_and!; [apply make_feed_date| |apply make_feed_time].
    exists run. by rewrite <- match_digits_spec.
Qed.

End RowEvents.

Section Store.

Context `{Host}.

Lemma bind_run {A B} (m : Ref.M A) (k : A -> Ref.M B) (h : Ref.store) :
  (m ≫= k) h = let '(x, h') := m h in k x h'.
Proof. done. Qed.

Lemma read_run (l : Ref.loc) (a : list DailyStat.t) (h : Ref.store) :
  h !! l = Some a -> Ref.read l h = (a, h).
Proof. intros Hl. unfold Ref.read. by rewrite Hl. Qed.

Lemma alloc_run (a : list DailyStat.t) (h : Ref.store) :
  exists l, Ref.alloc a h = (l, <[l := a]> h) /\ h !! l = None.
Proof.
  exists (fresh (dom h)). split; [done|].
  apply not_elem_of_dom, is_fresh.
Qed.

Lemma slice_run (l : Ref.loc) (start end_ : Z) (a : list DailyStat.t) (h : Ref.store) :
  h !! l = Some a ->
  exists l' h', Ref.slice l start end_ h = (l', h') /\ h ⊆ h' /\
                h' !! l' = Some (JS.slice start end_ a).
Proof.
  intros Hl. unfold Ref.slice. rewrite bind_run, (read_run l a h Hl).
  destruct (alloc_run (JS.slice start end_ a) h) as (l' & -> & Hfresh).
  exists l', (<[l' := JS.slice start end_ a]> h).
  split_and!; [done|by apply insert_subseteq|by rewrite lookup_insert_eq].
Qed.

Lemma slice_from_0 {A} (a : list A) : JS.slice_from 0 a = a.
Proof.
  unfold JS.slice_from, JS.slice, JS.rel_index.
  change (0 <? 0)%Z with false. cbv iota.
  destruct (Z.of_nat (length a) <? 0)%Z eqn:E; [apply Z.ltb_lt in E; lia|].
  replace (Z.to_nat (Z.min 0 (Z.of_nat (length a)))) with 0 by lia.
  apply take_ge. simpl. lia.
Qed.

Lemma trend_at_run (sortedStats : Ref.loc) (sorted : list DailyStat.t) (i : nat)
    (h : Ref.store) :
  h !! sortedStats = Some sorted ->
  exists h', Ref.trend_at sortedStats i h = (trend_at sorted i, h') /\ h ⊆ h'.
Proof.
  intros Hl. unfold Ref.trend_at. rewrite bind_run.
  destruct (slice_run sortedStats (Z.of_nat i - 6) (Z.of_nat i + 1) sorted h Hl)
    as (l1 & h1 & -> & Hsub1 & Hl1).
  pose proof (lookup_weaken _ _ _ _ Hl Hsub1) as Hs1.
  rewrite bind_run.
  destruct (slice_run sortedStats (Z.max 0 (Z.of_nat i - 13)) (Z.of_nat i - 6) sorted h1 Hs1)
    as (l2 & h2 & -> & Hsub2 & Hl2).
  pose proof (lookup_weaken _ _ _ _ Hs1 Hsub2) as Hs2.
  pose proof (lookup_weaken _ _ _ _ Hl1 Hsub2) as Hl1'.
  rewrite bind_run, (read_run _ _ _ Hl1'), bind_run, (read_run _ _ _ Hl2),
    bind_run, (read_run _ _ _ Hs2).
  exists h2. split; [done|]. by etrans.
Qed.

Lemma for_each_run (sortedStats : Ref.loc) (sorted : list DailyStat.t)
    (indices : list nat) (h : Ref.store) :
  h !! sortedStats = Some sorted ->
  exists h', Ref.for_each (Ref.trend_at sortedStats) indices h =
             (flat_map (trend_at sorted) indices, h') /\ h ⊆ h'.
Proof.
  revert h. induction indices as [|i indices IH]; intros h Hl; simpl.
  - by exists h.
  - rewrite bind_run.
    destruct (trend_at_run sortedStats sorted i h Hl) as (h1 & -> & Hsub1).
    pose proof (lookup_weaken _ _ _ _ Hl Hsub1) as Hl1.
    rewrite bind_run. destruct (IH h1 Hl1) as (h2 & -> & Hsub2).
    exists h2. split; [done|]. by etrans.
Qed.

Lemma calculateDailyTrends_run (allStats : Ref.loc) (a : list DailyStat.t) (h : Ref.store) :
  h !! allStats = Some a ->
  exists h', Ref.calculateDailyTrends allStats h = (calculateDailyTrends a, h') /\ h ⊆ h'.
Proof.
  intros Hl. unfold Ref.calculateDailyTrends, calculateDailyTrends.
  rewrite bind_run, (read_run _ _ _ Hl).
  destruct (length a <? 14)%nat; [by exists h|].
  unfold Ref.slice_all. rewrite !bind_run, (read_run _ _ _ Hl), slice_from_0.
  destruct (alloc_run a h) as (copy & -> & Hfresh).
  unfold Ref.sort at 1. rewrite bind_run.
  set (h2 := alter (Array_sort stat_compare_time) copy (<[copy := a]> h)).
  assert (h2 !! copy = Some (Array_sort stat_compare_time a)) as Hcopy.
  { unfold h2. by rewrite lookup_alter_eq, lookup_insert_eq. }
  assert (h ⊆ h2) as Hsub.
  { unfold h2. rewrite alter_insert_eq. by apply insert_subseteq. }
  rewrite bind_run, (read_run _ _ _ Hcopy).
  destruct (for_each_run copy _ (seq 13 (length (Array_sort stat_compare_time a) - 13))
              h2 Hcopy) as (h3 & -> & Hsub3).
  exists h3. split; [done|]. by etrans.
Qed.

(** C10.  [calculateDailyTrends] leaves the array it is given, and
    every other array of the store, with the entries it had, in the same
    order; it returns the history of the pure function, and the
    [allStats] of the response is the same array. *)
Theorem trends_leave_allStats (allStats : Ref.loc) (a : list DailyStat.t) (h : Ref.store) :
  h !! allStats = Some a ->
  exists (history : list TrendHistoryEntry.t) (h' : Ref.store),
    Ref.calculateDailyTrends allStats h = (history, h') /\
    history = calculateDailyTrends a /\
    h' !! allStats = Some a /\
    (forall l b, h !! l = Some b -> h' !! l = Some b) /\
    exists response,
      Ref.handleDataRequest_extend allStats h = (response, h') /\
      Ref.allStats response = allStats /\
      Ref.trendHistory response = history.
Proof.
  intros Hl. destruct (calculateDailyTrends_run allStats a h Hl) as (h' & Hrun & Hsub).
  exists (calculateDailyTrends a), h'. split_and!; [done|done| | |].
  - by eapply lookup_weaken.
  - intros l b Hb. by eapply lookup_weaken.
  - unfold Ref.handleDataRequest_extend. rewrite bind_run, Hrun. by eexists.
Qed.

(** Without the copy the sort would rewrite the array it is given. *)
Lemma sort_in_place (cmp : DailyStat.t -> DailyStat.t -> option Z) (l : Ref.loc)
    (a : list DailyStat.t) (h : Ref.store) :
  h !! l = Some a -> (Ref.sort cmp l h).2 !! l = Some (Array_sort cmp a).
Proof. intros Hl. unfold Ref.sort. simpl. by rewrite lookup_alter_eq, Hl. Qed.

End Store.

Section Errors.

Context `{Host}.

Lemma column_missing_spec (headers : list string) :
  column_missing (find_columns headers) = false <->
  Forall (fun name => name ∈ headers) required_columns.
Proof.
  unfold column_missing, find_columns, required_columns.
  cbn [typeIndex startIndex startLocationIndex endConditionIndex].
  rewrite !orb_false_iff, !Z.eqb_neq, !Forall_cons, !findIndex_missing, !String_eqb_elem.
  split.
  - intros [[[H1 H2] H3] H4]. split_and!; try apply Forall_nil_2;
      match goal with |- ?x ∈ ?l => by destruct (decide (x ∈ l)) end.
  - intros (H1 & H2 & H3 & H4 & _). split_and!; by intros ?.
Qed.

Lemma analyzeBottleFeeds_ok (csvText : string) (feedsByDate : JS.object DayAcc.t) :
  2 <= length (input_lines csvText) ->
  column_missing (input_columns csvText) = false ->
  input_feeds csvText <> [] ->
  group_feeds [] (Array_sort feed_compare (input_feeds csvText)) = inr feedsByDate ->
  analyzeBottleFeeds csvText =
  inr (summarize (Array_sort feed_compare (input_feeds csvText)) feedsByDate).
Proof.
  intros Hlen Hcols Hfeeds Hgroup. unfold analyzeBottleFeeds, analyze.
  fold (input_lines csvText). fold (input_headers csvText).
  fold (input_columns csvText). fold (input_feeds csvText).
  destruct (length (input_lines csvText) <? 2)%nat eqn:E1; [apply Nat.ltb_lt in E1; lia|].
  rewrite Hcols.
  destruct (length (input_feeds csvText) =? 0)%nat eqn:E3.
  { apply Nat.eqb_eq in E3. by destruct (input_feeds csvText). }
  by rewrite Hgroup.
Qed.

Lemma group_feeds_throws (o : JS.object DayAcc.t) (feeds : list Event.t) (e : exn) :
  group_feeds o feeds = inl e -> e = TypeError V8_push_of_undefined.
Proof.
  revert o. induction feeds as [|feed feeds IH]; intros o; simpl; [done|].
  destruct (group_feed o feed) as [e0|o'] eqn:Eg; [|apply IH].
  intros [= ->]. unfold group_feed in Eg.
  destruct (JS.own_get _ _); [done|]. destruct (bool_decide _); [|done].
  by injection Eg as <-.
Qed.

Lemma Array_sort_singleton {A} (cmp : A -> A -> option Z) (x : A) :
  Array_sort cmp [x] = [x].
Proof. apply Permutation_singleton_r. apply Array_sort_perm. Qed.

(** C4.  The analysis throws one of the two structural errors exactly
    when the input has fewer than 2 rows or one of the four required
    names is not among the header names; it throws the error for no
    usable data exactly when the structure is right and no row gives an
    event; and an input for which it throws gives no result. *)
Theorem analysis_errors (csvText : string) :
  let structural :=
    length (input_lines csvText) < 2 \/
    ~ Forall (fun name => name ∈ input_headers csvText) required_columns in
  ((exists e, analyzeBottleFeeds csvText = inl e /\ structural_error e) <-> structural) /\
  (analyzeBottleFeeds csvText = inl no_data_error <->
   ~ structural /\ input_feeds csvText = []) /\
  (forall e r, analyzeBottleFeeds csvText = inl e -> analyzeBottleFeeds csvText <> inr r).
Proof.
  cbv zeta. rewrite <- column_missing_spec. fold (input_columns csvText).
  unfold analyzeBottleFeeds, analyze, structural_error, no_data_error.
  fold (input_lines csvText). fold (input_headers csvText).
  fold (input_columns csvText). fold (input_feeds csvText).
  destruct (length (input_lines csvText) <? 2)%nat eqn:E1.
  { apply Nat.ltb_lt in E1. split_and!.
    - split; [by left|]. intros _. eexists. split; [done|by left].
    - split; [done|]. intros [Hn _]. exfalso. apply Hn. by left.
    - congruence. }
  apply Nat.ltb_ge in E1.
  destruct (column_missing (input_columns csvText)) eqn:E2.
  { split_and!.
    - split; [by right|]. intros _. eexists. split; [done|by right].
    - split; [done|]. intros [Hn _]. exfalso. apply Hn. by right.
    - congruence. }
  assert (~ (length (input_lines csvText) < 2 \/ false <> false)) as Hns
    by (intros [?|?]; [lia|done]).
  destruct (length (input_feeds csvText) =? 0)%nat eqn:E3.
  { apply Nat.eqb_eq in E3. split_and!.
    - split; [|done]. intros (e & [= <-] & [?|?]); done.
    - split; [|done]. intros _. split; [done|]. by destruct (input_feeds csvText).
    - congruence. }
  apply Nat.eqb_neq in E3.
  destruct (group_feeds [] _) as [e|fbd] eqn:E4.
  - apply group_feeds_throws in E4 as ->. split_and!.
    + split; [|done]. by intros (e' & [= <-] & [?|?]).
    + split; [done|]. intros [_ Hnil]. by rewrite Hnil in E3.
    + congruence.
  - split_and!.
    + split; [|done]. by intros (e & ? & _).
    + split; [done|]. intros [_ Hnil]. by rewrite Hnil in E3.
    + congruence.
Qed.

(** C2.  Every event of [rawFeeds] should have an hour from 0 to 23, a
    row that fails this being dropped.  The row with the time 99:00 is
    kept: its event, with the hour 99, is the one event of [rawFeeds] and
    is counted in the last slot. *)
Theorem hour_99_is_kept :
  exists r, analyzeBottleFeeds csv_hour_99 = inr r /\
            AnalysisResult.rawFeeds r =
            [ {| Event.date := "2023-03-01"; Event.time := "99:00";
                 Event.hour := Some 99%Z; Event.amount := 120 |} ] /\
            TimeSlotStat.count <$> AnalysisResult.timeStats r = [0; 0; 0; 1]%Z.
Proof.
  eexists. split.
  - apply analyzeBottleFeeds_ok with
      (feedsByDate := [("2023-03-01",
         {| DayAcc.feeds := [ {| Event.date := "2023-03-01"; Event.time := "99:00";
                                 Event.hour := Some 99%Z; Event.amount := 120 |} ];
            DayAcc.totalAmount := 120; DayAcc.count := 1 |})]).
    + vm_compute. lia.
    + by vm_compute.
    + by vm_compute.
    + change (input_feeds csv_hour_99) with
        [ {| Event.date := "2023-03-01"; Event.time := "99:00";
             Event.hour := Some 99%Z; Event.amount := 120 |} ].
      by rewrite Array_sort_singleton.
  - change (input_feeds csv_hour_99) with
      [ {| Event.date := "2023-03-01"; Event.time := "99:00";
           Event.hour := Some 99%Z; Event.amount := 120 |} ].
    rewrite Array_sort_singleton. split; [done|]. by vm_compute.
Qed.

(** C8.  A comma inside a quoted field should be no field boundary in
    any row, the header included.  The header is split at every comma:
    the quoted name [A,B] gives two header names, while [parseCSVLine]
    reads the same text as five fields; the positions found in the header
    then fit no data row, and the analysis finds no event. *)
Theorem header_split_ignores_quotes :
  parse_headers header_quoted_comma =
    ["A"; "B"; "Type"; "Start"; "Start Location"; "End Condition"] /\
  parseCSVLine header_quoted_comma =
    ["A,B"; "Type"; "Start"; "Start Location"; "End Condition"] /\
  analyzeBottleFeeds csv_quoted_comma = inl no_data_error.
Proof. split_and!; by vm_compute. Qed.

End Errors.

(** ** The properties at concrete inputs *)

(** The README's two rows: one day with two feeds, 270 ml in all, 135 ml
    on average, and no trend. *)
Example readme_two_rows :
  exists r, analyzeBottleFeeds (H := reference_host) csv_readme = inr r /\
            AnalysisResult.allStats r =
            [ {| DailyStat.date := "2023-03-01"; DailyStat.feedCount := 2;
                 DailyStat.totalAmount := 270;
                 DailyStat.averageAmount := 1350 # 10 |} ] /\
            AnalysisResult.recentTrend r = None.
Proof. eexists. split_and!; vm_compute; reflexivity. Qed.

(** A row fed at the breast and a row without digits give no event. *)
Example rows_without_event :
  collect_feeds columns_0123
    [ "Feed,2023-03-01 08:00,Breast,120ml"; "Feed,2023-03-01 09:00,Bottle,Refused" ] = [].
Proof. vm_compute. reflexivity. Qed.

(** The quotes are stripped before the white space is: a quoted field
    with a space before its opening quote keeps its quotes. *)
Example quotes_after_space_stay :
  parseCSVLine ("a, " ++ String JS.quote "b" ++ String JS.quote " ,c") =
  ["a"; (String JS.quote "b" ++ String JS.quote EmptyString)%string; "c"].
Proof. vm_compute. reflexivity. Qed.

(** A date that is a name of [Object.prototype] makes the grouping throw. *)
Example date_constructor_throws :
  analyzeBottleFeeds (H := reference_host)
    (header_line ++ String JS.newline "Feed,constructor,Bottle,120ml") =
  inl (Error ("Failed to analyze CSV: " ++ V8_push_of_undefined)).
Proof. vm_compute. reflexivity. Qed.




Lemma stats_15_days_ascending : ascending_dates (H := reference_host) stats_15_days.
Proof.
  exists ((fun k => 1677628800000 + 86400000 * k)%Z <$> seqZ 0 15).
  split; [vm_compute; reflexivity|].
  set (times := _ <$> _). vm_compute in times. subst times.
  repeat constructor; lia.
Qed.


Lemma row_yields_event_witness :
  columns_present columns_0123 /\
  (max_column columns_0123 <
   Z.of_nat (length (parseCSVLine "Feed,2023-03-01 08:00,Bottle,120ml")))%Z /\
  is_Some (row_feed columns_0123 "Feed,2023-03-01 08:00,Bottle,120ml").
Proof.
  assert (columns_present columns_0123) as Hc by (by vm_compute).
  assert (max_column columns_0123 <
          Z.of_nat (length (parseCSVLine "Feed,2023-03-01 08:00,Bottle,120ml")))%Z
    as Hlen by (by vm_compute).
  split; [exact Hc|]. split; [exact Hlen|].
  destruct (row_yields_event columns_0123 "Feed,2023-03-01 08:00,Bottle,120ml" Hc Hlen)
    as (loc & start & cond & Hloc & Hstart & Hcond & Hiff & _).
  vm_compute in Hloc, Hstart, Hcond.
  injection Hloc as <-. injection Hstart as <-. injection Hcond as <-.
  apply Hiff. split_and!.
  - by exists EmptyString, EmptyString.
  - exists "120". split; [|by vm_compute].
    exists EmptyString, "ml".
    split_and!; [reflexivity|reflexivity|discriminate|reflexivity|reflexivity].
  - by vm_compute.
Defined.

Lemma unbalanced_quote_witness :
  collect_feeds columns_0123
    [row_unbalanced; "Feed,2023-03-01 12:30,Bottle,150ml"] =
  [ {| Event.date := "2023-03-01"; Event.time := "12:30"; Event.hour := Some 12%Z;
       Event.amount := 150 |} ].
Proof.
  destruct (unbalanced_quote_is_local columns_0123 []
              ["Feed,2023-03-01 12:30,Bottle,150ml"] row_unbalanced) as [_ Hrows].
  simpl app in Hrows at 1. rewrite Hrows. vm_compute. reflexivity.
Defined.

Lemma trends_leave_allStats_witness :
  exists history h',
    Ref.calculateDailyTrends (H := reference_host) 1%positive
      {[ 1%positive := stats_15_days ]} = (history, h') /\
    h' !! 1%positive = Some stats_15_days /\
    length history = 2.
Proof.
  destruct (trends_leave_allStats (H := reference_host) 1%positive stats_15_days
              {[ 1%positive := stats_15_days ]} ltac:(apply lookup_singleton_eq))
    as (history & h' & Hrun & Hhist & Hkeep & _).
  exists history, h'. split_and!; [done|done|].
  rewrite Hhist. by vm_compute.
Defined.

Lemma analysis_errors_witness :
  exists e, analyzeBottleFeeds (H := reference_host) "Type,Start" = inl e /\
            structural_error e.
Proof.
  apply (analysis_errors (H := reference_host) "Type,Start").
  left. vm_compute. lia.
Defined.

(** * Further properties *)

(** ** When the analysis succeeds *)

(** Closes a goal whose hypothesis equates an error with a result, or two
    errors with different messages. *)
Ltac absurd_outcome :=
  let Hq := fresh in
  intros Hq; first [by destruct Hq | by vm_compute in Hq].

Section MoreAnalysis.

Context `{Host}.

(** The grouping loop throws exactly when a date is a name of
    [Object.prototype]. *)
Lemma group_feeds_inr (o : JS.object DayAcc.t) (feeds : list Event.t) :
  Forall (fun k => k ∉ JS.Object_prototype_names) o.*1 ->
  (exists o', group_feeds o feeds = inr o') <->
  Forall (fun e => Event.date e ∉ JS.Object_prototype_names) feeds.
Proof.
  revert o. induction feeds as [|feed feeds IH]; intros o Ho; simpl.
  - split; [by intros _|by eexists].
  - unfold group_feed.
    destruct (JS.own_get (Event.date feed) o) as [acc|] eqn:Eget.
    + assert (Event.date feed ∈ o.*1) as Hin.
      { destruct (decide (Event.date feed ∈ o.*1)) as [|Hn]; [done|].
        apply own_get_None in Hn. congruence. }
      rewrite IH by (by rewrite own_set_keys_old).
      rewrite Forall_cons. rewrite Forall_forall in Ho. specialize (Ho _ Hin). tauto.
    + apply own_get_None in Eget.
      destruct (bool_decide _) eqn:Eb.
      * apply bool_decide_eq_true in Eb. split; [by intros [? ?]|].
        intros [Hn _]%Forall_cons. done.
      * apply bool_decide_eq_false in Eb.
        rewrite IH.
        -- rewrite Forall_cons. tauto.
        -- rewrite own_set_keys_new by done. apply Forall_app. split; [done|].
           by repeat constructor.
Qed.

(** X1.  [analyzeBottleFeeds] returns a result exactly when the text
    has at least two lines, the header names the four required columns,
    at least one row yields an event, and no event has a date that is a
    name of [Object.prototype].  With the structure right, an event
    whose date is such a name makes the grouping loop throw, and the
    analysis rethrows the [TypeError] behind its own prefix. *)
Theorem analysis_succeeds_iff (csvText : string) :
  ((exists r, analyzeBottleFeeds csvText = inr r) <->
   2 <= length (input_lines csvText) /\
   Forall (fun name => name ∈ input_headers csvText) required_columns /\
   input_feeds csvText <> [] /\
   Forall (fun e => Event.date e ∉ JS.Object_prototype_names) (input_feeds csvText)) /\
  (analyzeBottleFeeds csvText =
     inl (Error ("Failed to analyze CSV: " ++ V8_push_of_undefined)) <->
   2 <= length (input_lines csvText) /\
   Forall (fun name => name ∈ input_headers csvText) required_columns /\
   Exists (fun e => Event.date e ∈ JS.Object_prototype_names) (input_feeds csvText)).
Proof.
  rewrite <- column_missing_spec. fold (input_columns csvText).
  assert ((exists o', group_feeds [] (Array_sort feed_compare (input_feeds csvText)) = inr o') <->
          Forall (fun e => Event.date e ∉ JS.Object_prototype_names) (input_feeds csvText))
    as Hgroup.
  { rewrite group_feeds_inr by constructor. by rewrite Array_sort_perm. }
  unfold analyzeBottleFeeds, analyze.
  fold (input_lines csvText). fold (input_headers csvText).
  fold (input_columns csvText). fold (input_feeds csvText).
  destruct (length (input_lines csvText) <? 2)%nat eqn:E1.
  { apply Nat.ltb_lt in E1. split; (split; [absurd_outcome|intros [? _]; lia]). }
  apply Nat.ltb_ge in E1.
  destruct (column_missing (input_columns csvText)) eqn:E2.
  { split; (split; [absurd_outcome|by intros (_ & ? & _)]). }
  destruct (length (input_feeds csvText) =? 0)%nat eqn:E3.
  { apply Nat.eqb_eq in E3. destruct (input_feeds csvText) as [|e l] eqn:Ef; [|done].
    split; (split; [absurd_outcome|]).
    - by intros (_ & _ & ? & _).
    - intros (_ & _ & Hex). by apply Exists_nil in Hex. }
  apply Nat.eqb_neq in E3.
  assert (input_feeds csvText <> []) as Hne by (intros Hnil; by rewrite Hnil in E3).
  destruct (group_feeds [] _) as [e|fbd] eqn:E4.
  - apply group_feeds_throws in E4 as He. subst e. split.
    + split; [by intros [? ?]|]. intros (_ & _ & _ & Hall).
      apply Hgroup in Hall as [o' Ho']. congruence.
    + split; [|done]. intros _. split_and!; [done|done|].
      destruct (decide (Exists (fun e => Event.date e ∈ JS.Object_prototype_names)
                               (input_feeds csvText))) as [|Hn]; [done|].
      apply Forall_Exists_neg, Hgroup in Hn as [o' Ho']. congruence.
  - split.
    + split; [|by eexists]. intros _. split_and!; [done|done|done|].
      apply Hgroup. by eexists.
    + split; [done|]. intros (_ & _ & Hex).
      assert (Forall (fun e => Event.date e ∉ JS.Object_prototype_names)
                     (input_feeds csvText)) as Hall by (apply Hgroup; by eexists).
      apply Exists_exists in Hex as (e & He & Hin).
      rewrite Forall_forall in Hall. exfalso. by apply (Hall e He).
Qed.

End MoreAnalysis.

(** ** The daily statistics, date by date *)

Section MoreStats.

Context `{Host}.

Lemma Zsum_app (l1 l2 : list Z) : Zsum (l1 ++ l2) = (Zsum l1 + Zsum l2)%Z.
Proof.
  induction l1 as [|x l1 IH]; [done|].
  rewrite <- app_comm_cons, !Zsum_cons, IH. lia.
Qed.

(** Every event is counted for the one key that is its date. *)
Lemma Zsum_count_on_date (keys : list string) (feeds : list Event.t) :
  NoDup keys ->
  Forall (fun e => Event.date e ∈ keys) feeds ->
  Zsum ((fun k => Z.of_nat (length (on_date k feeds))) <$> keys) = Z.of_nat (length feeds).
Proof.
  intros Hnd. induction 1 as [|e feeds He _ IH].
  - clear Hnd. induction keys as [|k keys IHk]; [done|].
    rewrite fmap_cons, Zsum_cons, IHk. done.
  - simpl length. rewrite Nat2Z.inj_succ, <- IH. clear IH.
    induction keys as [|k keys IHk]; [by apply elem_of_nil in He|].
    apply NoDup_cons in Hnd as [Hk Hnd]. rewrite !fmap_cons, !Zsum_cons.
    rewrite on_date_cons.
    destruct (decide (Event.date e = k)) as [Heq|Hne].
    + assert (Zsum ((fun k0 => Z.of_nat (length (on_date k0 (e :: feeds)))) <$> keys) =
              Zsum ((fun k0 => Z.of_nat (length (on_date k0 feeds))) <$> keys)) as ->;
        [|simpl length; lia].
      f_equal. apply list_fmap_ext. intros i k0 Hk0.
      simpl. rewrite on_date_cons.
      destruct (decide (Event.date e = k0)) as [Heq'|]; [|done].
      exfalso. apply Hk. rewrite <- Heq, Heq'. by eapply list_elem_of_lookup_2.
    + apply elem_of_cons in He as [?|He]; [done|].
      rewrite (IHk Hnd He). lia.
Qed.

Lemma daily_stat_date (o : JS.object DayAcc.t) (k : string) :
  DailyStat.date (daily_stat o k) = k.
Proof. done. Qed.

Lemma allStats_dates_perm (feeds : list Event.t) (o : JS.object DayAcc.t) :
  DailyStat.date <$> AnalysisResult.allStats (summarize feeds o) ≡ₚ o.*1.
Proof.
  rewrite (fmap_Permutation _ _ _ (allStats_perm feeds o)).
  rewrite <- list_fmap_compose. by rewrite list_fmap_id.
Qed.

Lemma allStats_feedCount_lower (feeds : list Event.t) (o : JS.object DayAcc.t) :
  grouped feeds o ->
  Forall (fun d => (1 <= DailyStat.feedCount d)%Z)
         (AnalysisResult.allStats (summarize feeds o)).
Proof.
  intros Hg. eapply Forall_impl; [by apply allStats_grouped|].
  intros d [Hk ->]. rewrite (daily_stat_grouped feeds o _ Hg Hk). simpl.
  apply (grouped_keys feeds o _ Hg) in Hk.
  destruct (on_date (DailyStat.date d) feeds); [done|]. simpl length. lia.
Qed.

Lemma allStats_feedCount_sum (feeds : list Event.t) (o : JS.object DayAcc.t) :
  grouped feeds o ->
  Zsum (DailyStat.feedCount <$> AnalysisResult.allStats (summarize feeds o)) =
  Z.of_nat (length feeds).
Proof.
  intros Hg.
  rewrite (Zsum_perm _ _ (fmap_Permutation _ _ _ (allStats_perm feeds o))).
  rewrite <- (Zsum_count_on_date o.*1 feeds);
    [|by destruct Hg|by apply grouped_dates].
  f_equal. rewrite <- list_fmap_compose. apply list_fmap_ext.
  intros i k Hk. unfold compose.
  rewrite (daily_stat_grouped feeds o k Hg); [done|].
  by eapply list_elem_of_lookup_2.
Qed.

(** X2.  In a result of the analysis, [allStats] has one entry per
    date: no date occurs twice, the dates are those of the events of
    [rawFeeds], every [feedCount] is at least 1, and the feed counts add
    up to the number of events. *)
Theorem one_statistic_per_date (csvText : string) (r : AnalysisResult.t) :
  analyzeBottleFeeds csvText = inr r ->
  NoDup (DailyStat.date <$> AnalysisResult.allStats r) /\
  (forall date, date ∈ (DailyStat.date <$> AnalysisResult.allStats r) <->
                date ∈ (Event.date <$> AnalysisResult.rawFeeds r)) /\
  Forall (fun d => (1 <= DailyStat.feedCount d)%Z) (AnalysisResult.allStats r) /\
  Zsum (DailyStat.feedCount <$> AnalysisResult.allStats r) =
    Z.of_nat (length (AnalysisResult.rawFeeds r)).
Proof.
  intros (fbd & Hg & Hr & _ & _)%analyzeBottleFeeds_grouped.
  set (feeds := AnalysisResult.rawFeeds r) in *. rewrite Hr. split_and!.
  - rewrite allStats_dates_perm. by destruct Hg.
  - intros date. rewrite allStats_dates_perm, (grouped_keys feeds fbd date Hg).
    rewrite list_elem_of_fmap. split.
    + intros Hne. destruct (on_date date feeds) as [|e l] eqn:E; [done|].
      assert (e ∈ on_date date feeds) as Hin by (rewrite E; constructor).
      apply list_elem_of_filter in Hin as [Hd Hin]. by exists e.
    + intros (e & -> & Hin) Hnil.
      assert (e ∈ on_date (Event.date e) feeds) as Hin'
        by (by apply list_elem_of_filter).
      rewrite Hnil in Hin'. by apply elem_of_nil in Hin'.
  - by apply allStats_feedCount_lower.
  - by apply allStats_feedCount_sum.
Qed.

Lemma slice_from_last {A} (n : nat) (l : list A) :
  0 < n -> JS.slice_from (- Z.of_nat n) l = drop (length l - n) l.
Proof.
  intros Hn. unfold JS.slice_from, JS.slice, JS.rel_index.
  destruct (Z.of_nat (length l) <? 0)%Z eqn:E2; [apply Z.ltb_lt in E2; lia|].
  destruct (- Z.of_nat n <? 0)%Z eqn:E1; [|apply Z.ltb_ge in E1; lia].
  replace (Z.to_nat (Z.max (Z.of_nat (length l) + - Z.of_nat n) 0))
    with (length l - n) by lia.
  apply take_ge. rewrite length_drop. lia.
Qed.

(** X3.  [dailyStats] is the end of [allStats]: [allStats] is its
    first [length - 7] entries followed by [dailyStats], which therefore
    has seven entries, or all of them when there are fewer. *)
Theorem dailyStats_last_seven (csvText : string) (r : AnalysisResult.t) :
  analyzeBottleFeeds csvText = inr r ->
  AnalysisResult.allStats r =
    take (length (AnalysisResult.allStats r) - 7) (AnalysisResult.allStats r)
    ++ AnalysisResult.dailyStats r /\
  length (AnalysisResult.dailyStats r) = length (AnalysisResult.allStats r) `min` 7.
Proof.
  intros (_ & _ & _ & fbd & _ & ->)%analyzeBottleFeeds_inr.
  unfold summarize. simpl.
  rewrite (slice_from_last 7) by lia. split; [by rewrite take_drop|].
  rewrite length_drop. lia.
Qed.

End MoreStats.

(** ** Amounts of the time slots and the overall statistics *)

Section MoreSlots.

Context `{Host}.





End MoreSlots.

(** ** What a row contributes *)

Section MoreRows.

Context `{Host}.

(** X6.  A row is read through three of its fields only.  Two rows
    that both have enough fields and agree on the fields of the [Start],
    [Start Location] and [End Condition] columns give the same event, or
    both none: the [Type] field and any further field play no part. *)
Theorem row_reads_three_fields (c : columns) (line1 line2 : string) :
  columns_present c ->
  (max_column c < Z.of_nat (length (parseCSVLine line1)))%Z ->
  (max_column c < Z.of_nat (length (parseCSVLine line2)))%Z ->
  JS.index (parseCSVLine line1) (startIndex c) =
    JS.index (parseCSVLine line2) (startIndex c) ->
  JS.index (parseCSVLine line1) (startLocationIndex c) =
    JS.index (parseCSVLine line2) (startLocationIndex c) ->
  JS.index (parseCSVLine line1) (endConditionIndex c) =
    JS.index (parseCSVLine line2) (endConditionIndex c) ->
  row_feed c line1 = row_feed c line2.
Proof.
  intros (Ht & Hs & Hl & He) Hlen1 Hlen2 Hstart Hloc Hcond.
  pose proof Hlen1 as Hmax. unfold max_column in Hmax.
  destruct (index_in_range (parseCSVLine line1) (startLocationIndex c)) as (loc & Hloc1 & _);
    [lia|].
  destruct (index_in_range (parseCSVLine line1) (startIndex c)) as (start & Hstart1 & _);
    [lia|].
  destruct (index_in_range (parseCSVLine line1) (endConditionIndex c)) as (cond & Hcond1 & _);
    [lia|].
  rewrite Hloc1 in Hloc. rewrite Hstart1 in Hstart. rewrite Hcond1 in Hcond.
  rewrite (row_feed_fields c line1 loc start cond) by done.
  by rewrite (row_feed_fields c line2 loc start cond).
Qed.

Lemma split_snoc (sep : ascii) (s : string) :
  JS.split sep (s ++ String sep EmptyString)%string = JS.split sep s ++ [EmptyString].
Proof.
  induction s as [|c s IH].
  - simpl. change (EmptyString ++ String sep EmptyString)%string with (String sep EmptyString).
    simpl. by rewrite Ascii.eqb_refl.
  - rewrite append_cons. simpl. rewrite IH.
    destruct (Ascii.eqb c sep); [done|].
    pose proof (split_nonempty sep s). by destruct (JS.split sep s).
Qed.

(** X7.  A newline added at the end of a text of at least two lines
    changes nothing: the empty last line it makes is skipped, so the
    analysis gives the same result or the same error. *)
Theorem trailing_newline_ignored (csvText : string) :
  2 <= length (input_lines csvText) ->
  analyzeBottleFeeds (csvText ++ String JS.newline EmptyString) =
  analyzeBottleFeeds csvText.
Proof.
  unfold input_lines. intros Hlen. unfold analyzeBottleFeeds, analyze.
  rewrite split_snoc. set (lines := JS.split JS.newline csvText) in *.
  rewrite length_app. simpl length.
  replace (length lines + 1 <? 2)%nat with false by (symmetry; apply Nat.ltb_ge; lia).
  replace (length lines <? 2)%nat with false by (symmetry; apply Nat.ltb_ge; lia).
  rewrite lookup_app_l by lia.
  rewrite drop_app_le by lia.
  rewrite collect_feeds_app.
  assert (forall c, collect_feeds c [EmptyString] = []) as -> by done.
  by rewrite app_nil_r.
Qed.

Lemma findIndex_least {A} (p : A -> bool) (a : list A) (j : nat) (x : A) :
  (Z.of_nat j < JS.findIndex p a)%Z -> a !! j = Some x -> p x = false.
Proof.
  revert j. induction a as [|y a IH]; intros j; simpl; [done|].
  destruct (p y) eqn:Hp; [lia|].
  destruct (JS.findIndex p a <? 0)%Z eqn:E; [lia|].
  destruct j as [|j]; simpl.
  - by intros _ [= <-].
  - intros Hj. apply IH. lia.
Qed.

(** X8.  When none of the four columns is missing, each index found
    in the header points at its name, and at the first position where
    that name stands. *)
Theorem columns_point_at_names (headers : list string) :
  let c := find_columns headers in
  column_missing c = false ->
  Forall (fun '(name, i) =>
            JS.index headers i = Some name /\
            forall j, j < Z.to_nat i -> headers !! j <> Some name)
         [ ("Type", typeIndex c); ("Start", startIndex c);
           ("Start Location", startLocationIndex c);
           ("End Condition", endConditionIndex c) ].
Proof.
  cbv zeta. unfold column_missing, find_columns.
  cbn [typeIndex startIndex startLocationIndex endConditionIndex].
  rewrite !orb_false_iff, !Z.eqb_neq. intros [[[H1 H2] H3] H4].
  assert (forall name,
            JS.findIndex (String.eqb name) headers <> (-1)%Z ->
            JS.index headers (JS.findIndex (String.eqb name) headers) = Some name /\
            forall j, j < Z.to_nat (JS.findIndex (String.eqb name) headers) ->
                      headers !! j <> Some name) as Hname.
  { intros name Hfound. pose proof Hfound as (x & Hx & Hp & Hr)%findIndex_found.
    apply String.eqb_eq in Hp as <-. split.
    - unfold JS.index. destruct (_ <? 0)%Z eqn:E; [apply Z.ltb_lt in E; lia|]. done.
    - intros j Hj Hlook.
      apply (findIndex_least (String.eqb name) headers) in Hlook; [|lia].
      by rewrite String.eqb_refl in Hlook. }
  repeat constructor; by apply Hname.
Qed.

End MoreRows.

(** ** Rows as pieces between commas *)

Section Pieces.

Lemma append_nil_r (s : string) : (s ++ EmptyString)%string = s.
Proof. induction s as [|c s IH]; [done|]. rewrite append_cons. by f_equal. Qed.

Lemma append_assoc (s1 s2 s3 : string) :
  ((s1 ++ s2) ++ s3)%string = (s1 ++ s2 ++ s3)%string.
Proof. induction s1 as [|c s1 IH]; [done|]. rewrite !append_cons. by f_equal. Qed.

Lemma substring_0_append (m r : string) :
  String.substring 0 (String.length m) (m ++ r)%string = m.
Proof.
  induction m as [|c m IH]; [by destruct r|].
  rewrite append_cons. simpl. by f_equal.
Qed.

Lemma substring_skip (d s : string) (k : nat) :
  String.substring (String.length d) k (d ++ s)%string = String.substring 0 k s.
Proof. induction d as [|c d IH]; [done|]. rewrite append_cons. simpl. apply IH. Qed.

Lemma substring_middle (d m r : string) :
  JS.substring (String.length d) (String.length d + String.length m) (d ++ m ++ r)%string = m.
Proof.
  unfold JS.substring. rewrite !length_append.
  replace (Nat.min (String.length d) _) with (String.length d) by lia.
  replace (Nat.min (String.length d + String.length m) _)
    with (String.length d + String.length m) by lia.
  replace (Nat.min (String.length d) _) with (String.length d) by lia.
  replace (Nat.max _ _ - String.length d) with (String.length m) by lia.
  by rewrite substring_skip, substring_0_append.
Qed.

Lemma substring_from_tail (d m : string) :
  JS.substring_from (String.length d) (d ++ m)%string = m.
Proof.
  unfold JS.substring_from. rewrite length_append.
  pose proof (substring_middle d m EmptyString) as Hm.
  by rewrite append_nil_r in Hm.
Qed.

Lemma split_unquoted_nonempty (q : bool) (s : string) : split_unquoted q s <> [].
Proof.
  revert q. induction s as [|c s IH]; intros q; simpl; [done|].
  destruct (Ascii.eqb c JS.quote).
  - specialize (IH (negb q)). by destruct (split_unquoted (negb q) s).
  - destruct (_ && _); [done|]. specialize (IH q). by destruct (split_unquoted q s).
Qed.

Lemma glue_cons_head (cur : string) (c : ascii) (pieces : list string) :
  pieces <> [] ->
  glue cur (cons_head c pieces) = glue (cur ++ String c EmptyString)%string pieces.
Proof. destruct pieces as [|f fs]; [done|]. intros _. simpl. by rewrite append_snoc. Qed.

Lemma glue_empty (pieces : list string) : pieces <> [] -> glue EmptyString pieces = pieces.
Proof. by destruct pieces. Qed.

Lemma step_at (line : string) (result : list string) (startPos i : nat) (q : bool)
    (c : ascii) :
  String.get i line = Some c ->
  parseCSVLine_step line (result, startPos, q) i =
  if Ascii.eqb c JS.quote then (result, startPos, negb q)
  else if Ascii.eqb c JS.comma && negb q then
    (result ++ [field_of (JS.substring startPos i line)], S i, q)
  else (result, startPos, q).
Proof. intros Hget. unfold parseCSVLine_step. by rewrite Hget. Qed.

Lemma scan_cons (line rest : string) (i : nat) (c : ascii) (st : list string * nat * bool) :
  scan line i (String c rest) st = scan line (S i) rest (parseCSVLine_step line st i).
Proof. done. Qed.

(** The loop of [parseCSVLine], started after [done] with the piece
    [cur] begun, ends with the pieces of the rest. *)
Lemma scan_pieces (line rest done cur : string) (result : list string) (q : bool) :
  line = (done ++ cur ++ rest)%string ->
  finish line (scan line (String.length done + String.length cur) rest
                 (result, String.length done, q)) =
  result ++ (field_of <$> glue cur (split_unquoted q rest)).
Proof.
  revert done cur result q.
  induction rest as [|c rest IH]; intros done cur result q Hline.
  - simpl. unfold finish. simpl. rewrite Hline, substring_from_tail. done.
  - assert (String.get (String.length done + String.length cur) line = Some c) as Hget.
    { rewrite Hline, <- append_assoc, <- length_append.
      rewrite <- (Nat.add_0_r (String.length _)), get_append. done. }
    assert (line = (done ++ (cur ++ String c EmptyString) ++ rest)%string) as Hline1.
    { by rewrite append_snoc. }
    assert (S (String.length done + String.length cur) =
            String.length done + String.length (cur ++ String c EmptyString)%string) as Hpos.
    { rewrite length_append. simpl. lia. }
    rewrite scan_cons, (step_at _ _ _ _ _ c Hget).
    simpl split_unquoted.
    destruct (Ascii.eqb c JS.quote) eqn:Eq.
    + rewrite Hpos, (IH _ _ _ _ Hline1).
      by rewrite glue_cons_head by apply split_unquoted_nonempty.
    + destruct (Ascii.eqb c JS.comma && negb q) eqn:Ec.
      * assert (JS.substring (String.length done) (String.length done + String.length cur) line
                = cur) as -> by (rewrite Hline; apply substring_middle).
        assert (line = ((done ++ cur ++ String c EmptyString) ++ EmptyString ++ rest)%string)
          as Hline2.
        { rewrite Hline, !append_assoc. done. }
        assert (S (String.length done + String.length cur) =
                String.length (done ++ cur ++ String c EmptyString)%string + 0) as Hpos2.
        { rewrite !length_append. simpl. lia. }
        rewrite Hpos2 at 1.
        replace (S (String.length done + String.length cur))
          with (String.length (done ++ cur ++ String c EmptyString)%string)
          by (rewrite Hpos2; lia).
        pose proof (IH _ EmptyString (result ++ [field_of cur]) q Hline2) as IH2.
        simpl String.length in IH2 at 2. rewrite IH2.
        rewrite glue_empty by apply split_unquoted_nonempty.
        simpl glue. rewrite append_nil_r, fmap_cons, <- app_assoc. done.
      * rewrite Hpos, (IH _ _ _ _ Hline1).
        by rewrite glue_cons_head by apply split_unquoted_nonempty.
Qed.

(** The fields of a row are the pieces between its commas outside
    quotes, each with its quotes stripped and trimmed. *)
Lemma parseCSVLine_pieces (line : string) :
  JS.is_empty (JS.trim line) = false ->
  parseCSVLine line = field_of <$> split_unquoted false line.
Proof.
  intros Hb. unfold parseCSVLine. rewrite Hb.
  destruct (JS.is_empty line) eqn:E; [by rewrite (trim_empty _ E) in Hb|]. simpl.
  pose proof (foldl_scan line line EmptyString ([], 0, false) eq_refl) as Hf.
  pose proof (scan_pieces line line EmptyString EmptyString [] false eq_refl) as Hp.
  simpl in Hf, Hp. rewrite Hf. unfold finish in Hp.
  destruct (scan line 0 line ([], 0, false)) as [[r s] q]. simpl in Hp. rewrite Hp.
  by rewrite glue_empty by apply split_unquoted_nonempty.
Qed.

Lemma split_unquoted_plain (line : string) :
  has_char JS.quote line = false ->
  split_unquoted false line = JS.split JS.comma line.
Proof.
  induction line as [|c line IH]; simpl; [done|].
  intros [-> Hq]%orb_false_elim. rewrite andb_true_r, (IH Hq).
  destruct (Ascii.eqb c JS.comma); [done|]. done.
Qed.

(** X9.  On a line without a double quote that is not blank,
    [parseCSVLine] gives the fields that the reading of the header
    gives: the two readers differ only where quotes are involved. *)
Theorem row_reader_agrees_with_header_reader (line : string) :
  has_char JS.quote line = false ->
  JS.is_empty (JS.trim line) = false ->
  parseCSVLine line = parse_headers line.
Proof.
  intros Hq Hb. rewrite (parseCSVLine_pieces line Hb), (split_unquoted_plain line Hq). done.
Qed.

End Pieces.

(** ** Quoting round trip *)

Section RoundTrip.

Lemma split_unquoted_inside (m tail : string) :
  has_char JS.quote m = false ->
  split_unquoted true (m ++ String JS.quote tail)%string =
  glue (m ++ String JS.quote EmptyString)%string (split_unquoted false tail).
Proof.
  induction m as [|c m IH]; intros Hq.
  - change (EmptyString ++ String JS.quote tail)%string with (String JS.quote tail).
    simpl. pose proof (split_unquoted_nonempty false tail).
    by destruct (split_unquoted false tail).
  - simpl in Hq. apply orb_false_elim in Hq as [Hc Hq].
    rewrite !append_cons. simpl. rewrite Hc, andb_false_r, (IH Hq).
    pose proof (split_unquoted_nonempty false tail).
    by destruct (split_unquoted false tail).
Qed.

Lemma split_unquoted_quoted (f tail : string) :
  has_char JS.quote f = false ->
  split_unquoted false (quoted f ++ tail)%string =
  glue (quoted f) (split_unquoted false tail).
Proof.
  intros Hq. unfold quoted. rewrite append_cons. simpl.
  rewrite append_snoc, (split_unquoted_inside f tail Hq).
  pose proof (split_unquoted_nonempty false tail).
  destruct (split_unquoted false tail); [done|]. simpl. by rewrite append_cons.
Qed.

Lemma split_unquoted_join (fields : list string) :
  fields <> [] ->
  Forall (fun f => has_char JS.quote f = false) fields ->
  split_unquoted false (join_commas (quoted <$> fields)) = quoted <$> fields.
Proof.
  intros Hne Hall. induction Hall as [|f fields Hf Hall IH]; [done|].
  destruct fields as [|g fields].
  - change (join_commas (quoted <$> [f])) with (quoted f).
    rewrite <- (append_nil_r (quoted f)) at 1.
    rewrite (split_unquoted_quoted f EmptyString Hf).
    change (split_unquoted false EmptyString) with [EmptyString].
    unfold glue. by rewrite append_nil_r.
  - change (join_commas (quoted <$> f :: g :: fields))
      with (quoted f ++ String JS.comma (join_commas (quoted <$> g :: fields)))%string.
    rewrite (split_unquoted_quoted f _ Hf).
    change (split_unquoted false (String JS.comma ?s))
      with (EmptyString :: split_unquoted false s).
    rewrite IH by done. unfold glue. by rewrite append_nil_r.
Qed.

Lemma drop_last_quote_snoc (f : string) :
  JS.drop_last_quote (f ++ String JS.quote EmptyString)%string = f.
Proof.
  induction f as [|c f IH]; [done|].
  rewrite append_cons. simpl. rewrite IH.
  by destruct (f ++ String JS.quote EmptyString)%string eqn:E; [destruct f|].
Qed.

Lemma field_of_quoted (f : string) : field_of (quoted f) = JS.trim f.
Proof. unfold field_of, quoted, JS.strip_quotes. simpl. by rewrite drop_last_quote_snoc. Qed.

Lemma quoted_not_blank (f tail : string) :
  JS.is_empty (JS.trim (quoted f ++ tail)%string) = false.
Proof. unfold quoted. rewrite append_cons. done. Qed.

(** X10.  Round trip.  Put each field of a non-empty list between
    double quotes and join the fields with commas: if no field contains
    a double quote, [parseCSVLine] gives the fields back, each trimmed,
    whatever commas they contain. *)
Theorem quoted_fields_round_trip (fields : list string) :
  fields <> [] ->
  Forall (fun f => has_char JS.quote f = false) fields ->
  parseCSVLine (join_commas (quoted <$> fields)) = JS.trim <$> fields.
Proof.
  intros Hne Hall. rewrite parseCSVLine_pieces.
  - rewrite (split_unquoted_join fields Hne Hall), <- list_fmap_compose.
    apply list_fmap_ext. intros i f _. apply field_of_quoted.
  - destruct fields as [|f [|g fields]]; [done| |].
    + change (join_commas (quoted <$> [f])) with (quoted f).
      rewrite <- (append_nil_r (quoted f)). apply quoted_not_blank.
    + apply quoted_not_blank.
Qed.

End RoundTrip.

(** ** Percent change and the trend history *)

Section RoundingError.

#[local] Open Scope Q_scope.







End RoundingError.

Section MoreTrends.

Context `{Host}.

Lemma calculateDailyTrends_entries (allStats : list DailyStat.t) :
  calculateDailyTrends allStats =
  if (length allStats <? 14)%nat then []
  else trend_entry (Array_sort stat_compare_time allStats)
         <$> seq 13 (length allStats - 13).
Proof.
  unfold calculateDailyTrends. destruct (_ <? _)%nat; [done|].
  rewrite trends_of_sorted_entries. f_equal. f_equal. f_equal.
  apply Permutation_length, Array_sort_perm.
Qed.


Lemma slice_older {A} (l : list A) :
  14 <= length l -> JS.slice (-14) (-7) l = take 7 (drop (length l - 14) l).
Proof.
  intros Hlen. unfold JS.slice, JS.rel_index. simpl.
  f_equal; [lia|]. f_equal. lia.
Qed.

(** X13.  On at least 14 statistics in ascending date order, the last
    entry of the trend history is the recent trend of the analysis: it
    carries the date of the last statistic and the same percent change,
    recent average and older average. *)
Theorem last_trend_is_recent_trend (stats : list DailyStat.t) :
  ascending_dates stats ->
  14 <= length stats ->
  exists entry t,
    last (calculateDailyTrends stats) = Some entry /\
    recent_trend stats = Some t /\
    TrendHistoryEntry.date entry = from_option DailyStat.date EmptyString (last stats) /\
    TrendHistoryEntry.value entry = TrendPoint.percentChange t /\
    TrendHistoryEntry.recentAvg entry = TrendPoint.recentAverage t /\
    TrendHistoryEntry.olderAvg entry = TrendPoint.olderAverage t.
Proof.
  intros Hasc Hlen. rewrite calculateDailyTrends_entries.
  rewrite (ascending_dates_sorted stats Hasc).
  replace (length stats <? 14)%nat with false by (symmetry; apply Nat.ltb_ge; lia).
  unfold recent_trend.
  replace (14 <=? length stats)%nat with true by (symmetry; apply Nat.leb_le; lia).
  replace (length stats - 13) with (S (length stats - 14)) by lia.
  exists (trend_entry stats (length stats - 1)). eexists. split.
  { rewrite fmap_last, seq_S, last_snoc.
    change (trend_entry stats <$> Some ?x) with (Some (trend_entry stats x)).
    do 2 f_equal. lia. }
  split; [done|]. unfold trend_entry.
  cbn [TrendHistoryEntry.date TrendHistoryEntry.value TrendHistoryEntry.recentAvg
       TrendHistoryEntry.olderAvg TrendPoint.percentChange TrendPoint.recentAverage
       TrendPoint.olderAverage].
  rewrite (slice_from_last 7) by lia. rewrite (slice_older stats Hlen).
  replace (length stats - 1 - 6) with (length stats - 7) by lia.
  replace (length stats - 1 - 13) with (length stats - 14) by lia.
  rewrite (take_ge (drop (length stats - 7) stats)) by (rewrite length_drop; lia).
  split_and!; try done.
  rewrite last_lookup. by replace (pred (length stats)) with (length stats - 1) by lia.
Qed.

End MoreTrends.

(** ** The upload worker *)

Section Substrings.

Lemma contains_refl (s : string) : contains s s.
Proof. exists EmptyString, EmptyString. by rewrite append_nil_r. Qed.

Lemma contains_trans (a b c : string) : contains a b -> contains b c -> contains a c.
Proof.
  intros (p1 & q1 & ->) (p2 & q2 & ->).
  exists (p2 ++ p1)%string. exists (q1 ++ q2)%string. by rewrite !append_assoc.
Qed.

Lemma contains_suffix (pre s : string) : contains s (pre ++ s)%string.
Proof. exists pre, EmptyString. by rewrite append_nil_r. Qed.

Lemma contains_prefix (s post : string) : contains s (s ++ post)%string.
Proof. by exists EmptyString, post. Qed.

Lemma contains_cons (a s : string) (c : ascii) : contains a s -> contains a (String c s).
Proof. intros (p & q & ->). exists (String c p). by exists q. Qed.

Lemma trimStart_contains (s : string) : contains (JS.trimStart s) s.
Proof.
  induction s as [|c s IH]; simpl; [apply contains_refl|].
  destruct (JS.is_whitespace c); [by apply contains_cons|apply contains_refl].
Qed.

Lemma trimEnd_prefix (s : string) : exists post, s = (JS.trimEnd s ++ post)%string.
Proof.
  induction s as [|c s [post IH]]; simpl; [by exists EmptyString|].
  destruct (JS.is_whitespace c && JS.is_empty (JS.trimEnd s)).
  - by exists (String c s).
  - exists post. rewrite append_cons. by f_equal.
Qed.

Lemma trim_contains (s : string) : contains (JS.trim s) s.
Proof.
  unfold JS.trim. eapply contains_trans; [|apply trimStart_contains].
  destruct (trimEnd_prefix (JS.trimStart s)) as [post Hp].
  rewrite Hp at 2. apply contains_prefix.
Qed.

Lemma drop_last_quote_prefix (s : string) :
  exists post, s = (JS.drop_last_quote s ++ post)%string.
Proof.
  induction s as [|c s [post IH]]; [by exists EmptyString|].
  simpl. destruct s as [|d s].
  - destruct (Ascii.eqb c JS.quote); [by eexists|]. exists EmptyString.
    by rewrite append_nil_r.
  - exists post. rewrite append_cons. by f_equal.
Qed.

Lemma strip_quotes_contains (s : string) : contains (JS.strip_quotes s) s.
Proof.
  unfold JS.strip_quotes.
  assert (forall t, contains (JS.drop_last_quote t) t) as Hd.
  { intros t. destruct (drop_last_quote_prefix t) as [post Hp].
    rewrite Hp at 2. apply contains_prefix. }
  destruct s as [|c s]; [apply Hd|].
  destruct (Ascii.eqb c JS.quote); [|apply Hd].
  apply contains_cons, Hd.
Qed.

Lemma field_of_contains (raw : string) : contains (field_of raw) raw.
Proof.
  unfold field_of. eapply contains_trans; [apply trim_contains|apply strip_quotes_contains].
Qed.

Lemma split_first_prefix (sep : ascii) (s f : string) (fs : list string) :
  JS.split sep s = f :: fs -> exists q, s = (f ++ q)%string.
Proof.
  revert f fs. induction s as [|c s IH]; intros f fs; simpl.
  - intros [= <- _]. by exists EmptyString.
  - destruct (Ascii.eqb c sep); [intros [= <- _]; by exists (String c s)|].
    destruct (JS.split sep s) as [|g gs] eqn:E; [intros [= <- _]; by exists s|].
    intros [= <- _]. destruct (IH g gs eq_refl) as [q ->]. by exists q.
Qed.

Lemma split_contains (sep : ascii) (s piece : string) :
  piece ∈ JS.split sep s -> contains piece s.
Proof.
  revert piece. induction s as [|c s IH]; intros piece; simpl.
  - intros ->%list_elem_of_singleton. apply contains_refl.
  - destruct (Ascii.eqb c sep).
    + intros [->|Hin]%elem_of_cons; [unfold contains; exists EmptyString; exists (String c s); reflexivity|].
      by apply contains_cons, IH.
    + pose proof (split_nonempty sep s) as Hne.
      destruct (JS.split sep s) as [|f fs] eqn:E; [done|].
      intros [->|Hin]%elem_of_cons.
      * destruct (split_first_prefix sep s f fs E) as [q ->].
        unfold contains. exists EmptyString. by exists q.
      * apply contains_cons, IH. by constructor.
Qed.

Lemma toLowerCase_append (a b : string) :
  JSX.toLowerCase (a ++ b)%string = (JSX.toLowerCase a ++ JSX.toLowerCase b)%string.
Proof. induction a as [|c a IH]; [done|]. rewrite append_cons. simpl. by rewrite IH. Qed.

Lemma toLowerCase_contains (a s : string) :
  contains a s -> contains (JSX.toLowerCase a) (JSX.toLowerCase s).
Proof.
  intros (p & q & ->). exists (JSX.toLowerCase p). exists (JSX.toLowerCase q).
  by rewrite !toLowerCase_append.
Qed.

(** A header name is part of the header row. *)
Lemma header_contains (line name : string) :
  name ∈ parse_headers line -> contains name line.
Proof.
  unfold parse_headers. intros (raw & -> & Hin)%list_elem_of_fmap.
  eapply contains_trans; [apply field_of_contains|by eapply split_contains].
Qed.

(** X14.  The check of the upload worker is weaker than the one of
    the analysis: a text of at least two lines whose header names the
    four required columns passes [validateCSV]. *)
Theorem upload_check_is_weaker (csvText : string) :
  2 <= length (input_lines csvText) ->
  Forall (fun name => name ∈ input_headers csvText) required_columns ->
  validateCSV csvText = true.
Proof.
  unfold input_lines, input_headers, required_columns, validateCSV, input_lines.
  intros Hlen Hall.
  replace (length (JS.split JS.newline csvText) <? 2)%nat with false
    by (symmetry; apply Nat.ltb_ge; lia).
  set (line := default EmptyString (JS.split JS.newline csvText !! 0)) in *.
  assert (forall name part,
            name ∈ parse_headers line -> contains part (JSX.toLowerCase name) ->
            JS.includes part (JSX.toLowerCase line) = true) as Hinc.
  { intros name part Hname Hpart. apply includes_spec.
    eapply contains_trans; [exact Hpart|].
    by apply toLowerCase_contains, header_contains. }
  apply Forall_cons in Hall as [H1 Hall]. apply Forall_cons in Hall as [H2 Hall].
  apply Forall_cons in Hall as [H3 Hall]. apply Forall_cons in Hall as [H4 _].
  rewrite (Hinc "Type" "type" H1) by apply contains_refl.
  rewrite (Hinc "Start" "start" H2) by apply contains_refl.
  rewrite (Hinc "Start Location" "location" H3) by (by exists "start ", EmptyString).
  rewrite (Hinc "End Condition" "condition" H4) by (by exists "end ", EmptyString).
  done.
Qed.

End Substrings.

Section Buckets.

Context `{Host}.

(** X15.  [handleUpload] on a bound bucket leaves every key other
    than [feeding-data.csv] as it was, leaves the whole bucket as it was
    unless it answers 200, and when it answers 200 the key holds the
    text of the uploaded file, which passed [validateCSV] and whose name
    ends in [.csv]. *)
Theorem upload_changes_one_key (now : string) (b : bucket) (request : upload_request) :
  exists status body b',
    handleUpload now (Some b) request = (status, body, Some b') /\
    (forall key, key <> "feeding-data.csv" -> b' !! key = b !! key) /\
    (status <> 200 -> b' = b) /\
    (status = 200 ->
     exists file, form_data request = inr (Some file) /\
                  b' !! "feeding-data.csv" = Some (file_text file) /\
                  validateCSV (file_text file) = true /\
                  JSX.endsWith ".csv" (file_name file) = true).
Proof.
  unfold handleUpload.
  destruct (negb _); [by eexists _, _, _|].
  destruct (form_data request) as [msg|[file|]]; [by eexists _, _, _| |by eexists _, _, _].
  destruct (JSX.endsWith ".csv" (file_name file)) eqn:Ee; [|by eexists _, _, _].
  destruct (validateCSV (file_text file)) eqn:Ev; [|by eexists _, _, _].
  simpl. eexists _, _, _. split_and!; [done| |done|].
  - intros key Hkey. by rewrite lookup_insert_ne.
  - intros _. exists file. by rewrite lookup_insert_eq.
Qed.

(** X16.  The upload worker writes the key [feeding-data.csv] and the
    data worker reads the key [josie-feeding-data.csv]: whatever is
    uploaded, on the bucket that [handleUpload] leaves the data request
    answers what it answered before. *)
Theorem upload_never_reaches_data (now now' : string) (R2_BUCKET : option bucket)
    (request : upload_request) :
  handleDataRequest now' (handleUpload now R2_BUCKET request).2 =
  handleDataRequest now' R2_BUCKET.
Proof.
  unfold handleUpload.
  destruct (negb _); [done|].
  destruct (form_data request) as [msg|[file|]]; [done| |done].
  destruct (negb (JSX.endsWith _ _)); [done|].
  destruct (negb (validateCSV _)); [done|].
  destruct R2_BUCKET as [b|]; [|done]. simpl.
  by rewrite lookup_insert_ne.
Qed.

End Buckets.

(** ** Accuracy of the daily averages *)

Section Accuracy.

Context `{Host}.


End Accuracy.

(** ** The data response *)

Section DataResponse.

Context `{Host}.



End DataResponse.

(** ** The further properties at concrete inputs *)

(** Applies a property of the results of [analyzeBottleFeeds] at the
    result the reference host computes for the text in the goal. *)
Ltac at_result property csvText :=
  match goal with
  | |- context [AnalysisResult.allStats ?r] =>
      generalize (property reference_host csvText r ltac:(vm_compute; reflexivity))
  | |- context [AnalysisResult.rawFeeds ?r] =>
      generalize (property reference_host csvText r ltac:(vm_compute; reflexivity))
  | |- context [AnalysisResult.overallStats ?r] =>
      generalize (property reference_host csvText r ltac:(vm_compute; reflexivity))
  end; cbv zeta.

Lemma one_statistic_per_date_witness :
  exists r, analyzeBottleFeeds (H := reference_host) csv_readme = inr r /\
            Zsum (DailyStat.feedCount <$> AnalysisResult.allStats r) =
            Z.of_nat (length (AnalysisResult.rawFeeds r)).
Proof.
  eexists. split; [vm_compute; reflexivity|].
  at_result @one_statistic_per_date csv_readme. intros T. apply T.
Defined.

Lemma dailyStats_last_seven_witness :
  exists r, analyzeBottleFeeds (H := reference_host) csv_14_days = inr r /\
            length (AnalysisResult.dailyStats r) =
            length (AnalysisResult.allStats r) `min` 7.
Proof.
  eexists. split; [vm_compute; reflexivity|].
  at_result @dailyStats_last_seven csv_14_days. intros T. apply T.
Defined.




Lemma row_reads_three_fields_witness :
  row_feed columns_0123 "Feed,2023-03-01 08:00,Bottle,120ml" =
  row_feed columns_0123 "Sleep,2023-03-01 08:00,Bottle,120ml,extra,columns".
Proof.
  apply row_reads_three_fields; by vm_compute.
Defined.

Lemma trailing_newline_ignored_witness :
  analyzeBottleFeeds (H := reference_host) (csv_readme ++ String JS.newline EmptyString) =
  analyzeBottleFeeds (H := reference_host) csv_readme.
Proof.
  apply (trailing_newline_ignored (H := reference_host)). apply Nat.leb_le. vm_compute. reflexivity.
Defined.

Lemma row_reader_agrees_with_header_reader_witness :
  parseCSVLine header_line = parse_headers header_line.
Proof. apply row_reader_agrees_with_header_reader; by vm_compute. Defined.

Lemma quoted_fields_round_trip_witness :
  parseCSVLine (join_commas (quoted <$> ["Feed"; "Bottle, warm"; " 120ml "])) =
  ["Feed"; "Bottle, warm"; "120ml"].
Proof.
  rewrite quoted_fields_round_trip; [by vm_compute|done|].
  repeat constructor.
Defined.



Lemma last_trend_is_recent_trend_witness :
  exists entry t,
    last (calculateDailyTrends (H := reference_host) stats_15_days) = Some entry /\
    recent_trend stats_15_days = Some t /\
    TrendHistoryEntry.value entry = TrendPoint.percentChange t.
Proof.
  assert (14 <= length stats_15_days) as Hlen
    by (apply Nat.leb_le; vm_compute; reflexivity).
  destruct (last_trend_is_recent_trend (H := reference_host) stats_15_days
              stats_15_days_ascending Hlen)
    as (entry & t & Hlast & Hrecent & _ & Hvalue & _).
  exists entry, t. split; [exact Hlast|]. split; [exact Hrecent|exact Hvalue].
Defined.

Lemma upload_check_is_weaker_witness : validateCSV csv_readme = true.
Proof.
  apply upload_check_is_weaker.
  - apply Nat.leb_le. vm_compute. reflexivity.
  - refine (bool_decide_unpack _ _). vm_compute. exact I.
Defined.

Lemma columns_point_at_names_witness :
  JS.index (parse_headers header_line)
           (startLocationIndex (find_columns (parse_headers header_line))) =
  Some "Start Location".
Proof.
  pose proof (columns_point_at_names (parse_headers header_line)
                ltac:(by vm_compute)) as T.
  cbv zeta in T. rewrite Forall_forall in T.
  apply (T ("Start Location", _)). set_solver.
Defined.

